(** * WAMS shared protocol layer: a shallow embedding and its properties

    The development follows the JavaScript sources of the WAMS API:

    - [shared/Message.js]      the typed message envelope ([Message]);
    - [mixins/Publishable.js]  the publication scheduler ([Publishable]);
    - the shared utilities     [initialize], [removeByID], [safeRemoveByID],
                               the [IDStamper] and the [Reporter] class factory.

    JavaScript values are modelled by [val]; exceptions by [exn]; a call that
    may throw returns a [completion].  Code that mutates an object, an array or
    the event loop is written in state-passing style: the mutated state is
    returned next to the completion of the call. *)

From Stdlib Require Import ZArith List String Bool Lia.
From stdpp Require Import gmap strings list fin_maps.

Local Open Scope Z_scope.

(* ===================================================================== *)
(** * JavaScript values, exceptions and objects                           *)
(* ===================================================================== *)

Module JS.

(** Primitive values.  Numbers are the integer-valued doubles (ids are
    counters or connection numbers): they are kept as their integer. *)
Inductive val :=
| VUndefined
| VNull
| VBool (b : bool)
| VNum (n : Z)
| VStr (s : string).

#[global] Instance val_eq_dec : EqDecision val.
Proof. solve_decision. Defined.

(** [a === b] on primitive values. *)
Definition strict_eq (a b : val) : bool := bool_decide (a = b).

(** SameValue(a, b), the comparison [Object.defineProperty] uses. *)
Definition SameValue (a b : val) : bool := bool_decide (a = b).

(** What a [throw] statement, or the engine, raises. *)
Inductive exn :=
| TypeError (msg : string)
| ThrownString (s : string).

Definition is_TypeError (e : exn) : bool :=
  match e with TypeError _ => true | ThrownString _ => false end.

(** The outcome of a call: it returns, or it throws. *)
Inductive completion (A : Type) :=
| Normal (a : A)
| Throw (e : exn).
Arguments Normal {A} a.
Arguments Throw {A} e.

(** ** Ordinary objects with plain properties

    Object literals, decoded payloads, the [rv] of [initialize] and reporter
    instances: extensible objects whose own properties are writable,
    enumerable data properties holding primitive values ([own]).  What an
    object does not own it finds on its prototype chain, which ends in
    [Object.prototype], unless the object has no prototype ([inherits] is
    false): that is so for [Object.create(null)], and after an assignment
    of [null] to [__proto__]. *)
Abbreviation dict := (gmap string val).

Record object := { own : dict; inherits : bool }.

(** An object literal with the given properties. *)
Definition literal (o : dict) : object := {| own := o; inherits := true |}.

(** [Object.prototype.hasOwnProperty], the built-in. *)
Definition owns (o : object) (k : string) : bool :=
  bool_decide (is_Some (own o !! k)).

(** [o.hasOwnProperty(k)]: the method is looked up on the object.  An own
    property of that name holds a primitive, and an object without
    prototype finds nothing: calling either throws a TypeError. *)
Definition hasOwnProperty (o : object) (k : string) : completion bool :=
  match own o !! "hasOwnProperty"%string with
  | Some _ => Throw (TypeError "hasOwnProperty is not a function")
  | None =>
      if inherits o then Normal (owns o k)
      else Throw (TypeError "hasOwnProperty is not a function")
  end.

(** [o[k]] for a key that the object owns. *)
Definition get (o : dict) (k : string) : val := default VUndefined (o !! k).

(** [Object.keys(o)]; the loops over it here do not depend on its order. *)
Definition keys (o : dict) : list string := (map_to_list o).*1.

(** [o[k] = v].  An own property is overwritten.  Otherwise the key
    [__proto__] reaches the setter of [Object.prototype], which makes no
    property: it removes the prototype when [v] is [null] and ignores any
    other primitive.  Every other key, and [__proto__] on an object without
    prototype, becomes a new own property. *)
Definition set_property (o : object) (k : string) (v : val) : object :=
  match own o !! k with
  | None =>
      if String.eqb k "__proto__" && inherits o
      then if bool_decide (v = VNull)
           then {| own := own o; inherits := false |}
           else o
      else {| own := <[k := v]> (own o); inherits := inherits o |}
  | Some _ => {| own := <[k := v]> (own o); inherits := inherits o |}
  end.

(** ** Objects with property attributes

    [Object.defineProperty] reads and writes the attributes of a data
    property, so the objects handed to the id stamper carry them.
    Accessor properties are left out. *)
Record PropertyDescriptor := {
  value        : val;
  writable     : bool;
  enumerable   : bool;
  configurable : bool
}.

Record Obj := {
  properties : gmap string PropertyDescriptor;
  extensible : bool
}.

(** [{}] *)
Definition empty_object : Obj := {| properties := ∅; extensible := true |}.

(** A property created by assignment or by an object literal. *)
Definition plain (v : val) : PropertyDescriptor :=
  {| value := v; writable := true; enumerable := true; configurable := true |}.

(** [o.k] on own data properties. *)
Definition get_own (o : Obj) (k : string) : val :=
  match properties o !! k with
  | Some d => value d
  | None => VUndefined
  end.

(** ValidateAndApplyPropertyDescriptor for a data descriptor [desc] that
    gives all four attributes, against the current property [current]:
    is the redefinition allowed? *)
Definition redefinable (current desc : PropertyDescriptor) : bool :=
  if configurable current then true
  else if configurable desc then false
  else if negb (eqb (enumerable desc) (enumerable current)) then false
  else if writable current then true
  else if writable desc then false
  else SameValue (value desc) (value current).

(** [Object.defineProperty(o, k, desc)], which throws a TypeError when the
    property cannot be created or redefined. *)
Definition defineProperty (o : Obj) (k : string) (desc : PropertyDescriptor)
  : completion Obj :=
  match properties o !! k with
  | None =>
      if extensible o
      then Normal {| properties := <[k := desc]> (properties o);
                     extensible := extensible o |}
      else Throw (TypeError ("Cannot define property " ++ k ++
                             ", object is not extensible"))
  | Some current =>
      if redefinable current desc
      then Normal {| properties := <[k := desc]> (properties o);
                     extensible := extensible o |}
      else Throw (TypeError ("Cannot redefine property: " ++ k))
  end.

(** [Object.getOwnPropertyDescriptor(o, k)], [None] for [undefined]. *)
Definition getOwnPropertyDescriptor (o : Obj) (k : string)
  : option PropertyDescriptor :=
  properties o !! k.

(** A descriptor as a caller may write it, with attributes left out. *)
Record Attributes := {
  attr_value        : option val;
  attr_writable     : option bool;
  attr_enumerable   : option bool;
  attr_configurable : option bool
}.

(** ValidateAndApplyPropertyDescriptor, the validation: may the data
    property [current] take the attributes that [desc] gives? *)
Definition compatible (current : PropertyDescriptor) (desc : Attributes) : bool :=
  if configurable current then true
  else if bool_decide (attr_configurable desc = Some true) then false
  else if match attr_enumerable desc with
          | Some b => negb (eqb b (enumerable current))
          | None => false
          end then false
  else if writable current then true
  else if bool_decide (attr_writable desc = Some true) then false
  else match attr_value desc with
       | Some v => SameValue v (value current)
       | None => true
       end.

(** ValidateAndApplyPropertyDescriptor, the application: the attributes
    that [desc] gives replace those of [current]. *)
Definition apply_attributes (current : PropertyDescriptor) (desc : Attributes)
  : PropertyDescriptor :=
  {| value        := default (value current) (attr_value desc);
     writable     := default (writable current) (attr_writable desc);
     enumerable   := default (enumerable current) (attr_enumerable desc);
     configurable := default (configurable current) (attr_configurable desc) |}.

(** The attributes of a new property that its descriptor leaves out. *)
Definition absent : PropertyDescriptor :=
  {| value := VUndefined; writable := false; enumerable := false;
     configurable := false |}.

(** [Object.defineProperty(o, k, desc)] for a descriptor that may leave
    attributes out. *)
Definition definePropertyWith (o : Obj) (k : string) (desc : Attributes)
  : completion Obj :=
  match properties o !! k with
  | None =>
      if extensible o
      then Normal {| properties := <[k := apply_attributes absent desc]>
                                     (properties o);
                     extensible := extensible o |}
      else Throw (TypeError ("Cannot define property " ++ k ++
                             ", object is not extensible"))
  | Some current =>
      if compatible current desc
      then Normal {| properties := <[k := apply_attributes current desc]>
                                     (properties o);
                     extensible := extensible o |}
      else Throw (TypeError ("Cannot redefine property: " ++ k))
  end.

(** A dictionary as an object with attributes: every property plain. *)
Definition plain_object (o : dict) : Obj :=
  {| properties := plain <$> o; extensible := true |}.

(** What [hasOwnProperty] and [o[k]] see of an object with attributes. *)
Definition own_values (o : Obj) : dict := value <$> properties o.

End JS.
Import JS.

(* ===================================================================== *)
(** * shared/Message.js                                                   *)
(* ===================================================================== *)

Module Message.

(** The enumeration of message types, as [Object.entries(TYPES)]. *)
Definition TYPES : list (string * string) :=
  [ ("ADD_ELEMENT", "wams-add-element");
    ("ADD_IMAGE",   "wams-add-image");
    ("ADD_ITEM",    "wams-add-item");
    ("ADD_SHADOW",  "wams-add-shadow");
    ("RM_ITEM",     "wams-remove-item");
    ("RM_SHADOW",   "wams-remove-shadow");
    ("UD_ITEM",     "wams-update-item");
    ("UD_SHADOW",   "wams-update-shadow");
    ("UD_VIEW",     "wams-update-view");
    ("RM_ATTRS",    "wams-remove-attributes");
    ("SET_ATTRS",   "wams-set-attributes");
    ("SET_IMAGE",   "wams-set-image");
    ("SET_RENDER",  "wams-set-render");
    ("INITIALIZE",  "wams-initialize");
    ("LAYOUT",      "wams-layout");
    ("FULL",        "wams-full");
    ("CLICK",       "wams-click");
    ("RESIZE",      "wams-resize");
    ("SWIPE",       "wams-swipe");
    ("TRACK",       "wams-track");
    ("TRANSFORM",   "wams-transform");
    ("POINTER",     "wams-pointer");
    ("BLUR",        "wams-blur");
    ("IMG_LOAD",    "wams-image-loaded") ]%string.

(** [Object.values(TYPES)] *)
Definition TYPE_VALUES : list string := map snd TYPES.

(** [array.includes(s)] on an array of strings. *)
Fixpoint includes (array : list string) (s : string) : bool :=
  match array with
  | [] => false
  | x :: rest => if String.eqb x s then true else includes rest s
  end.

Section Envelope.
(** [R]: what is handed over as the reporter; [D]: the snapshots.
    [report r] is [None] when [r] has no callable [report]. *)
Context {R D : Type}.
Variable report : R -> option D.

Record Message := { type : string; reporter : R }.

(** [new Message(type, reporter)] *)
Definition new (type : string) (reporter : R) : completion Message :=
  if negb (includes TYPE_VALUES type)
  then Throw (TypeError "Invalid message type!")
  else Normal {| type := type; reporter := reporter |}.

(** An emitter is observed through the packets given to its [emit],
    oldest first. *)
Definition Emitter : Type := list (string * D).

Definition emit (emitter : Emitter) (type : string) (data : D) : Emitter :=
  emitter ++ [(type, data)].

(** [message.emitWith(emitter)] *)
Definition emitWith (this : Message) (emitter : Emitter)
  : Emitter * completion unit :=
  match report (reporter this) with
  | None =>
      (emitter, Throw (TypeError "this.reporter.report is not a function"))
  | Some data => (emit emitter (type this) data, Normal tt)
  end.
End Envelope.
Arguments Message : clear implicits.
Arguments Emitter : clear implicits.

End Message.

(* ===================================================================== *)
(** * Shared utilities                                                    *)
(* ===================================================================== *)

Module Utils.

(** [makeOwnPropertyImmutable(obj, prop)]: the object afterwards, which is
    also what the call returns. *)
Definition makeOwnPropertyImmutable (obj : Obj) (prop : string)
  : completion Obj :=
  match getOwnPropertyDescriptor obj prop with
  | Some desc =>
      if configurable desc
      then definePropertyWith obj prop
             {| attr_value := None; attr_writable := Some false;
                attr_enumerable := None; attr_configurable := Some false |}
      else Normal obj
  | None => Normal obj
  end.

(** [initialize(defaults, data)] *)
Definition initialize (defaults data : object) : completion object :=
  foldl (fun acc k =>
           match acc with
           | Throw e => Throw e
           | Normal rv =>
               match hasOwnProperty data k with
               | Throw e => Throw e
               | Normal found =>
                   Normal (set_property rv k
                             (if found then get (own data) k
                              else get (own defaults) k))
               end
           end)
        (Normal (literal ∅)) (keys (own defaults)).

Section Arrays.
(** [T]: the elements of the array, each with an [id] ([undefined] when
    it was never stamped); [Class]: the constructor functions. *)
Context {T Class : Type}.
Variable id : T -> val.
Variable instanceof : T -> Class -> bool.
Variable toString : Class -> string.

(** [array.findIndex(pred)], -1 when no element satisfies [pred]. *)
Fixpoint findIndex_from (pred : T -> bool) (array : list T) (i : Z) : Z :=
  match array with
  | [] => -1
  | o :: rest => if pred o then i else findIndex_from pred rest (i + 1)
  end.

Definition findIndex (pred : T -> bool) (array : list T) : Z :=
  findIndex_from pred array 0.

(** [array.splice(idx, 1)] for [0 <= idx]: the array that is left. *)
Definition splice1 (array : list T) (idx : Z) : list T :=
  firstn (Z.to_nat idx) array ++ skipn (S (Z.to_nat idx)) array.

(** [removeByID(array, item)]: the array afterwards and the result. *)
Definition removeByID (array : list T) (item : T) : list T * bool :=
  let idx := findIndex (fun o => strict_eq (id o) (id item)) array in
  if idx >=? 0 then (splice1 array idx, true) else (array, false).

(** [safeRemoveByID(array, item, class_fn)] *)
Definition safeRemoveByID (array : list T) (item : T) (class_fn : Class)
  : list T * completion bool :=
  if negb (instanceof item class_fn)
  then (array,
        Throw (ThrownString ("Invalid " ++ toString class_fn ++ " received.")))
  else let '(array', rv) := removeByID array item in (array', Normal rv).
End Arrays.

End Utils.

(* ===================================================================== *)
(** * The id stamper                                                      *)
(* ===================================================================== *)

Module IDStamper.

(** The nearest double to a non-negative integer [n] (below 2^1024), ties
    to the even significand: integers below 2^53 are doubles; above,
    doubles are [2^e] apart, where [e] is the exponent of [n] less 52. *)
Definition round_to_double (n : Z) : Z :=
  if n <? 2 ^ 53 then n
  else
    let e := Z.log2 n - 52 in
    let q := Z.shiftr n e in
    let r := Z.land n (Z.ones e) in
    let half := 2 ^ (e - 1) in
    let q' := if r <? half then q
              else if half <? r then q + 1
              else if Z.even q then q else q + 1 in
    Z.shiftl q' e.

(** [x + y] on integer-valued doubles. *)
Definition number_add (x y : Z) : Z := round_to_double (x + y).

(** [willNotOverflow(x)]: [x + 1 > x] *)
Definition willNotOverflow (x : Z) : bool := number_add x 1 >? x.

(** What [next()] answers. *)
Record IteratorResult := { value : val; done : bool }.

(** The generator object made by [id_gen()]: suspended with its local
    [next_id] (0 before the first [next()]), or completed once the loop
    has been left. *)
Inductive generator :=
| Suspended (next_id : Z)
| Completed.

(** [id_gen()] *)
Definition id_gen : generator := Suspended 0.

(** [gen.next()]: resumes [while (willNotOverflow(next_id)) yield ++next_id;] *)
Definition next (g : generator) : generator * IteratorResult :=
  match g with
  | Suspended next_id =>
      if willNotOverflow next_id
      then let next_id' := number_add next_id 1 in
           (Suspended next_id', {| value := VNum next_id'; done := false |})
      else (Completed, {| value := VUndefined; done := true |})
  | Completed => (Completed, {| value := VUndefined; done := true |})
  end.

(** An IDStamper holds its generator in [this[gen]]. *)
Record IDStamper := { gen : generator }.

(** [new IDStamper()] *)
Definition new : IDStamper := {| gen := id_gen |}.

(** [stamper.stamp(obj, id)]; an omitted [id] is [undefined].  The
    stamper and the object afterwards, and the completion of the call. *)
Definition stamp (this : IDStamper) (obj : Obj) (id : val)
  : IDStamper * Obj * completion val :=
  let '(this', v) :=
    if strict_eq id VUndefined
    then let '(g, r) := next (gen this) in ({| gen := g |}, value r)
    else (this, id) in
  match defineProperty obj "id"
          {| JS.value := v; configurable := false;
             enumerable := true; writable := false |} with
  | Throw e => (this', obj, Throw e)
  | Normal obj' => (this', obj', Normal (get_own obj' "id"))
  end.

(** A series of [stamp] calls on one stamper, each on the object as it is
    at the time of that call: the stamper afterwards and the completion
    of every call, in order. *)
Fixpoint stamp_all (this : IDStamper) (calls : list (Obj * val))
  : IDStamper * list (completion val) :=
  match calls with
  | [] => (this, [])
  | (obj, id) :: rest =>
      let '(this', _, c) := stamp this obj id in
      let '(this'', cs) := stamp_all this' rest in
      (this'', c :: cs)
  end.

End IDStamper.

(* ===================================================================== *)
(** * The Reporter class factory                                          *)
(* ===================================================================== *)

Module Reporter.

Section Factory.
(** [reporterClassFactory(_coreProperties)] *)
Variable _coreProperties : list string.

(** What an instance finds on its prototype chain, by name: the methods of
    its classes and of [Object.prototype], and [__proto__].  None of them
    is a primitive. *)
Variable inherited : string -> bool.

(** The frozen [defaults]: every core property, defined with value [null]. *)
Definition defaults : object :=
  literal (foldl (fun d p => <[p := VNull]> d) ∅ _coreProperties).

(** [this.assign(data)]: the instance afterwards, which is also what the
    call returns when it does not throw. *)
Definition assign (this data : object) : object * completion unit :=
  foldl (fun st p =>
           match st with
           | (this, Throw e) => (this, Throw e)
           | (this, Normal _) =>
               match hasOwnProperty data p with
               | Throw e => (this, Throw e)
               | Normal found =>
                   (if found then set_property this p (get (own data) p)
                    else this,
                    Normal tt)
               end
           end)
        (this, Normal tt) _coreProperties.

(** [new Reporter(data)]; an omitted [data] is the empty object. *)
Definition new (data : object) : completion object :=
  match Utils.initialize defaults data with
  | Throw e => Throw e
  | Normal values =>
      match assign (literal ∅) values with
      | (_, Throw e) => Throw e
      | (this, Normal _) => Normal this
      end
  end.

(** [this[p]] for any key: the own value, [undefined] when neither the
    object nor its chain has the key, and [None] when the chain has it, as
    what is found there is not a primitive. *)
Definition read (this : object) (p : string) : option val :=
  match own this !! p with
  | Some v => Some v
  | None => if inherits this && inherited p then None else Some VUndefined
  end.

(** [this.report()], with the stamper of the module, which [report] shares
    with every reporter: the stamper afterwards and the snapshot.  [None]
    when a declared field is read off the prototype chain. *)
Definition report (stamper : IDStamper.IDStamper) (this : object)
  : option (IDStamper.IDStamper * completion Obj) :=
  match foldl (fun acc p =>
                 match acc with
                 | None => None
                 | Some data =>
                     match read this p with
                     | None => None
                     | Some v => Some (set_property data p v)
                     end
                 end)
              (Some (literal ∅)) _coreProperties with
  | None => None
  | Some data =>
      match hasOwnProperty this "id" with
      | Throw e => Some (stamper, Throw e)
      | Normal false => Some (stamper, Normal (plain_object (own data)))
      | Normal true =>
          let '(stamper', data', c) :=
            IDStamper.stamp stamper (plain_object (own data))
              (get (own this) "id") in
          Some (stamper',
                match c with
                | Throw e => Throw e
                | Normal _ => Normal data'
                end)
      end
  end.
End Factory.

Definition Viewer : list string :=
  [ "x"; "y"; "width"; "height"; "type"; "effectiveWidth";
    "effectiveHeight"; "scale"; "rotation" ]%string.

Definition Item : list string :=
  [ "x"; "y"; "width"; "height"; "type"; "imgsrc"; "drawCustom";
    "drawStart" ]%string.

End Reporter.

(* ===================================================================== *)
(** * mixins/Publishable.js                                               *)
(* ===================================================================== *)

Module Publishable.

(** Publishable instances are told apart by a number. *)
Abbreviation entity := nat.

(** What the [emitPublication] of a class does, as far as the scheduler
    and the wire can see: it calls [publish()] on an entity, it sends the
    entity's update, or it throws. *)
Inductive action :=
| CallPublish (target : entity)
| Transmit
| Fail (s : string).

(** The default of the mixin:
    [throw 'Classes using Publishable mixin must implement emitPublication()'] *)
Definition unimplemented : list action :=
  [ Fail "Classes using Publishable mixin must implement emitPublication()" ].

(** The event loop and the entities, as far as publication goes. *)
Record World := {
  scheduled  : gmap nat bool;  (** [this[symbols.scheduled]], absent when undefined *)
  immediates : list entity;    (** the [setImmediate] queue: whose bound
                                   [symbols.emit] waits, oldest first *)
  emissions  : list entity;    (** every call of [emitPublication], oldest first *)
  wire       : list entity     (** every update sent, oldest first *)
}.

(** A started process: nothing scheduled, nothing queued. *)
Definition boot : World :=
  {| scheduled := ∅; immediates := []; emissions := []; wire := [] |}.

(** [!this[symbols.scheduled]] *)
Definition not_scheduled (this : entity) (w : World) : bool :=
  match scheduled w !! this with
  | Some true => false
  | Some false | None => true
  end.

(** [this.publish()] *)
Definition publish (this : entity) (w : World) : World :=
  if not_scheduled this w
  then {| scheduled  := <[this := true]> (scheduled w);
          immediates := immediates w ++ [this];
          emissions  := emissions w;
          wire       := wire w |}
  else w.

Section Mixin.
(** The [emitPublication] of each entity's class. *)
Variable emitPublication : entity -> list action.

(** Running the body of [this.emitPublication()]. *)
Fixpoint run (this : entity) (body : list action) (w : World)
  : World * completion unit :=
  match body with
  | [] => (w, Normal tt)
  | CallPublish target :: rest => run this rest (publish target w)
  | Transmit :: rest =>
      run this rest {| scheduled  := scheduled w;
                       immediates := immediates w;
                       emissions  := emissions w;
                       wire       := wire w ++ [this] |}
  | Fail s :: _ => (w, Throw (ThrownString s))
  end.

(** [this[symbols.emit]()] *)
Definition emit (this : entity) (w : World) : World * completion unit :=
  let w1 := {| scheduled  := <[this := false]> (scheduled w);
               immediates := immediates w;
               emissions  := emissions w;
               wire       := wire w |} in
  run this (emitPublication this)
      {| scheduled  := scheduled w1;
         immediates := immediates w1;
         emissions  := emissions w1 ++ [this];
         wire       := wire w1 |}.

(** The callbacks of one check phase, in order; an exception that
    escapes a callback ends the process. *)
Fixpoint run_immediates (queue : list entity) (w : World)
  : World * completion unit :=
  match queue with
  | [] => (w, Normal tt)
  | this :: rest =>
      match emit this w with
      | (w', Normal _) => run_immediates rest w'
      | (w', Throw e) => (w', Throw e)
      end
  end.

(** The deferred flush at the end of a turn: the callbacks queued so
    far run; those queued meanwhile wait for the next flush. *)
Definition flush (w : World) : World * completion unit :=
  run_immediates (immediates w)
    {| scheduled  := scheduled w;
       immediates := [];
       emissions  := emissions w;
       wire       := wire w |}.
End Mixin.

End Publishable.


(* ===================================================================== *)
(** * Vocabulary of the statements                                        *)
(* ===================================================================== *)

(** The property that [stamp] defines when it writes the id [v]. *)
Definition stamped_id (v : val) : PropertyDescriptor :=
  {| JS.value := v; configurable := false; enumerable := true;
     writable := false |}.

(** [obj] carries the id [v], as a successful [stamp] left it. *)
Definition stamped_with (obj : Obj) (v : val) : Prop :=
  properties obj !! "id"%string = Some (stamped_id v).

(** The value that [stamper.stamp(obj, id)] tries to write: the given id,
    or what the generator yields when none is given. *)
Definition id_to_write (this : IDStamper.IDStamper) (id : val) : val :=
  if strict_eq id VUndefined
  then IDStamper.value (snd (IDStamper.next (IDStamper.gen this)))
  else id.

(** Re-stamping never throws: on an object that carries an id, [stamp]
    returns normally and the object keeps that id. *)
Definition restamp_never_throws : Prop :=
  forall (this : IDStamper.IDStamper) (obj : Obj) (v id : val),
    stamped_with obj v ->
    exists this' obj' r,
      IDStamper.stamp this obj id = (this', obj', Normal r)
      /\ get_own obj' "id" = v.

(** The [hasOwnProperty] of the object is the built-in: the object has a
    prototype and owns no property of that name. *)
Definition builtin_hasOwnProperty (o : object) : Prop :=
  own o !! "hasOwnProperty"%string = None /\ inherits o = true.

(** [{...d1, ...d2}]: the properties of both, those of [d2] first. *)
Definition spread (d1 d2 : object) : object := literal (own d2 ∪ own d1).

(** [initialize] merges whatever the two objects are: it returns an object
    with exactly the keys of [defaults], each holding the value of [data]
    when [data] owns the key and that of [defaults] otherwise. *)
Definition initialize_merges_any_objects : Prop :=
  forall defaults data : object,
    exists rv,
      Utils.initialize defaults data = Normal rv
      /\ dom (own rv) = dom (own defaults)
      /\ forall k,
           own rv !! k
           = match own defaults !! k with
             | Some d =>
                 Some (match own data !! k with Some v => v | None => d end)
             | None => None
             end.


(** The fields of a snapshot, for an instance that owns every declared
    field [F], none of them [__proto__]. *)
Definition snapshot_fields (F : list string) (this : object) : dict :=
  foldl (fun d p => <[p := get (own this) p]> d) ∅ F.

(** The names that an instance of a reporter class finds on its prototype
    chain when the class adds no method of its own. *)
Definition reporter_chain (p : string) : bool :=
  bool_decide (p ∈ [ "constructor"; "assign"; "report"; "__proto__";
                     "hasOwnProperty"; "isPrototypeOf";
                     "propertyIsEnumerable"; "toLocaleString"; "toString";
                     "valueOf"; "__defineGetter__"; "__defineSetter__";
                     "__lookupGetter__"; "__lookupSetter__" ]%string).

(** How many of the calls ask the stamper to generate the id. *)
Definition requests (calls : list (Obj * val)) : nat :=
  length (List.filter (fun c => strict_eq (snd c) VUndefined) calls).

(** One [stamper.stamp({})]: the stamper afterwards. *)
Definition request (this : IDStamper.IDStamper) : IDStamper.IDStamper :=
  fst (fst (IDStamper.stamp this empty_object VUndefined)).

(** The body never throws. *)
Definition quiet (body : list Publishable.action) : bool :=
  forallb (fun a => match a with Publishable.Fail _ => false | _ => true end)
          body.

(** How often the entity [e] occurs in a queue or in a log. *)
Abbreviation count l e := (count_occ Nat.eq_dec l e).

(** The [publish()] calls of one synchronous turn, on the entities of
    [turn] in that order. *)
Definition publish_each (turn : list nat) (w : Publishable.World)
  : Publishable.World :=
  foldl (fun w target => Publishable.publish target w) w turn.

(** The entity waits in the queue exactly when its flag is set, and then
    once: what [publish] and the flush maintain. *)
Definition pending_once (e : nat) (w : Publishable.World) : Prop :=
  count (Publishable.immediates w) e
  = match Publishable.scheduled w !! e with
    | Some true => 1%nat
    | _ => 0%nat
    end.

(** The same during a flush: an entity whose flag is set waits once, either
    among the callbacks still to run ([queue]) or in the new queue. *)
Definition pending_split (queue : list nat) (w : Publishable.World) : Prop :=
  forall e : nat,
    (count (Publishable.immediates w) e + count queue e)%nat
    = match Publishable.scheduled w !! e with
      | Some true => 1%nat
      | _ => 0%nat
      end.

(** The entities of a turn, each once, in the order of their first
    [publish()]. *)
Fixpoint first_occurrences (turn : list nat) : list nat :=
  match turn with
  | [] => []
  | t :: rest =>
      t :: List.filter (fun x => negb (Nat.eqb x t)) (first_occurrences rest)
  end.

(** The body only sends: it calls no [publish()] and does not throw. *)
Definition silent (body : list Publishable.action) : bool :=
  forallb (fun a => match a with Publishable.Transmit => true | _ => false end)
          body.

(** Nothing is queued and no flag is set, as between two bursts of work. *)
Definition idle (w : Publishable.World) : Prop :=
  Publishable.immediates w = []
  /\ forall e : nat, Publishable.scheduled w !! e <> Some true.

(** The event loop over several turns: the [publish()] calls of a turn, then
    its flush; an exception that escapes a flush ends the process. *)
Fixpoint run_turns (emitPublication : nat -> list Publishable.action)
    (turns : list (list nat)) (w : Publishable.World)
  : Publishable.World * completion unit :=
  match turns with
  | [] => (w, Normal tt)
  | turn :: rest =>
      match Publishable.flush emitPublication (publish_each turn w) with
      | (w', Normal _) => run_turns emitPublication rest w'
      | (w', Throw e) => (w', Throw e)
      end
  end.


(* ===================================================================== *)
(** * Properties of the message envelope                                  *)
(* ===================================================================== *)

Section MessageFacts.
Import Message.

Lemma includes_In (array : list string) (s : string) :
  includes array s = true <-> In s array.
Proof.
  induction array as [|x rest IH]; simpl.
  - split; [discriminate | tauto].
  - destruct (String.eqb_spec x s) as [->|Hne].
    + split; auto.
    + rewrite IH. split; [auto | intros [H|H]; [contradiction | exact H]].
Qed.

Lemma includes_not_In (array : list string) (s : string) :
  includes array s = false <-> ~ In s array.
Proof.
  rewrite <- includes_In. destruct (includes array s); split; congruence.
Qed.

Example TYPE_VALUES_count : length TYPE_VALUES = 24%nat.
Proof. reflexivity. Qed.

Lemma TYPE_VALUES_NoDup : NoDup TYPE_VALUES.
Proof. apply (bool_decide_unpack _). vm_compute. exact I. Qed.

Example new_click :
  Message.new "wams-click" 7%nat
  = Normal {| type := "wams-click"; reporter := 7%nat |}.
Proof. reflexivity. Qed.

Example new_key_rather_than_value :
  Message.new "CLICK" 7%nat = Throw (TypeError "Invalid message type!").
Proof. reflexivity. Qed.

(** C1.  [new Message(s, r)] throws a TypeError, constructing nothing, exactly
    when the string [s] is not among the type strings of the enumeration; for
    a string of the enumeration it constructs the message whose [type] is [s]
    (and whose reporter is [r]).  The enumeration has 24 distinct strings. *)
Theorem Message_new_accepts_exactly_TYPE_VALUES
    {R : Type} (s : string) (r : R) :
  (Message.new s r = Throw (TypeError "Invalid message type!")
     <-> ~ In s TYPE_VALUES)
  /\ ((exists m, Message.new s r = Normal m /\ type m = s /\ reporter m = r)
     <-> In s TYPE_VALUES)
  /\ length TYPE_VALUES = 24%nat
  /\ NoDup TYPE_VALUES.
Proof.
  unfold Message.new.
  destruct (includes TYPE_VALUES s) eqn:E; simpl.
  - apply includes_In in E. repeat split.
    + discriminate.
    + intros H. contradiction.
    + intros _. exact E.
    + intros _. eexists. repeat split.
    + exact TYPE_VALUES_NoDup.
  - apply includes_not_In in E. repeat split.
    + intros _. exact E.
    + intros [m [H _]]. discriminate.
    + intros H. contradiction.
    + exact TYPE_VALUES_NoDup.
Qed.

Section Emission.
Context {R D : Type}.
Variable report : R -> option D.

(** C8.  For a type string [k] of the enumeration, [new Message(k, r)]
    succeeds whatever [r] is.  If [r] can report, [emitWith(channel)] hands
    the channel exactly one more packet, [(k, r.report())], and returns; if
    [r] has no [report], it is [emitWith] that throws, and the channel gets
    nothing. *)
Theorem emitWith_emits_once (k : string) (r : R) (channel : Emitter D) :
  In k TYPE_VALUES ->
  exists m,
    Message.new k r = Normal m
    /\ match report r with
       | Some snapshot =>
           emitWith report m channel = (channel ++ [(k, snapshot)], Normal tt)
       | None =>
           exists e, emitWith report m channel = (channel, Throw e)
                     /\ is_TypeError e = true
       end.
Proof.
  intros Hk. apply includes_In in Hk.
  exists {| type := k; reporter := r |}. split.
  - unfold Message.new. rewrite Hk. reflexivity.
  - unfold emitWith, emit; simpl. destruct (report r); eauto.
Qed.
End Emission.

Lemma emitWith_emits_once_witness :
  In "wams-update-item"%string TYPE_VALUES
  /\ exists m,
       Message.new "wams-update-item" (Some 5) = Normal m
       /\ emitWith (fun r : option Z => r) m [("wams-click"%string, 1)]
          = ([("wams-click"%string, 1); ("wams-update-item"%string, 5)],
             Normal tt).
Proof.
  split.
  - apply includes_In. reflexivity.
  - apply (emitWith_emits_once (fun r : option Z => r) "wams-update-item"
             (Some 5) [("wams-click"%string, 1)]).
    apply includes_In. reflexivity.
Defined.

End MessageFacts.

(* ===================================================================== *)
(** * Properties of [initialize] and of [Reporter.assign]                 *)
(* ===================================================================== *)

Section ObjectFacts.
Implicit Types (o rv defaults data this : object) (k p : string) (v : val).

(** ** Calling [hasOwnProperty] *)

Lemma builtin_hasOwnProperty_dec o :
  {builtin_hasOwnProperty o} + {~ builtin_hasOwnProperty o}.
Proof.
  unfold builtin_hasOwnProperty.
  destruct (own o !! "hasOwnProperty"%string) as [v|];
    [right; intros [H _]; discriminate|].
  destruct (inherits o); [left; auto | right; intros [_ H]; discriminate].
Qed.

Lemma hasOwnProperty_builtin o k :
  builtin_hasOwnProperty o -> hasOwnProperty o k = Normal (owns o k).
Proof.
  intros [Hown Hin]. unfold hasOwnProperty. rewrite Hown, Hin. reflexivity.
Qed.

Lemma hasOwnProperty_shadowed o k :
  ~ builtin_hasOwnProperty o ->
  hasOwnProperty o k = Throw (TypeError "hasOwnProperty is not a function").
Proof.
  intros H. unfold hasOwnProperty, builtin_hasOwnProperty in *.
  destruct (own o !! "hasOwnProperty"%string) as [v|]; [reflexivity|].
  destruct (inherits o); [|reflexivity]. exfalso. apply H. auto.
Qed.

Lemma owns_true o k : owns o k = true <-> exists v, own o !! k = Some v.
Proof. unfold owns. rewrite bool_decide_eq_true. reflexivity. Qed.

Lemma owns_false o k : owns o k = false <-> own o !! k = None.
Proof.
  unfold owns. rewrite bool_decide_eq_false, eq_None_not_Some. reflexivity.
Qed.

(** The value that [initialize] stores under a key of the defaults. *)
Lemma picked_value defaults data k d :
  own defaults !! k = Some d ->
  (if owns data k then get (own data) k else get (own defaults) k)
  = match own data !! k with Some v => v | None => d end.
Proof.
  intros Hd. unfold get. rewrite Hd.
  destruct (own data !! k) as [v|] eqn:Ev.
  - rewrite (proj2 (owns_true data k)) by eauto. reflexivity.
  - rewrite (proj2 (owns_false data k)) by exact Ev. reflexivity.
Qed.

Lemma elem_of_keys (m : gmap string val) k : k ∈ keys m <-> is_Some (m !! k).
Proof.
  unfold keys. rewrite list_elem_of_fmap. split.
  - intros [[k' v] [-> H]]. apply elem_of_map_to_list in H. eauto.
  - intros [v H]. exists (k, v). split; [reflexivity|].
    apply elem_of_map_to_list. exact H.
Qed.

Lemma NoDup_keys (m : gmap string val) : NoDup (keys m).
Proof. apply NoDup_fst_map_to_list. Qed.

(** ** Assignments in a row *)

Lemma set_property_other o k p v :
  k <> p -> own (set_property o p v) !! k = own o !! k.
Proof.
  intros Hne. unfold set_property.
  destruct (own o !! p);
    [simpl; apply lookup_insert_ne; congruence|].
  destruct (String.eqb p "__proto__" && inherits o).
  - destruct (bool_decide (v = VNull)); reflexivity.
  - simpl. apply lookup_insert_ne. congruence.
Qed.

Lemma set_property_plain o p v :
  p <> "__proto__"%string ->
  set_property o p v = {| own := <[p := v]> (own o); inherits := inherits o |}.
Proof.
  intros Hne. unfold set_property.
  destruct (own o !! p); [reflexivity|].
  rewrite (proj2 (String.eqb_neq p "__proto__") Hne). reflexivity.
Qed.

Lemma set_property_proto o v :
  own o !! "__proto__"%string = None ->
  inherits o = true ->
  set_property o "__proto__" v
  = {| own := own o; inherits := negb (bool_decide (v = VNull)) |}.
Proof.
  intros Hown Hin. unfold set_property. rewrite Hown, Hin. simpl.
  destruct (bool_decide (v = VNull)); [reflexivity|].
  destruct o; simpl in *. subst. reflexivity.
Qed.

(** A loop that assigns [f k] to every key [k] of a list without repeats,
    on an object that does not own [__proto__]. *)
Lemma foldl_set_property (f : string -> val) (l : list string) :
  forall o,
    NoDup l ->
    own o !! "__proto__"%string = None ->
    inherits o = true \/ "__proto__"%string ∉ l ->
    forall k,
      own (foldl (fun rv k' => set_property rv k' (f k')) o l) !! k
      = if bool_decide (k ∈ l /\ k <> "__proto__"%string) then Some (f k)
        else own o !! k.
Proof.
  induction l as [|p l IH]; intros o Hnd Hown Hin k; cbn [foldl].
  - case_bool_decide as H; [destruct H as [H _]; inversion H | reflexivity].
  - apply NoDup_cons in Hnd. destruct Hnd as [Hp Hnd].
    destruct (decide (p = "__proto__"%string)) as [->|Hne].
    + destruct Hin as [Hin|Hin];
        [|exfalso; apply Hin; apply list_elem_of_here].
      rewrite (set_property_proto o (f "__proto__"%string) Hown Hin).
      rewrite IH; [|exact Hnd | exact Hown | right; exact Hp].
      cbn [own].
      repeat case_bool_decide; try reflexivity; exfalso;
        rewrite ?elem_of_cons in *; intuition congruence.
    + rewrite IH; [|exact Hnd | | ].
      * rewrite (set_property_plain o p (f p) Hne). cbn [own].
        destruct (decide (k = p)) as [->|Hk].
        -- rewrite lookup_insert_eq.
           repeat case_bool_decide; try reflexivity; exfalso;
             rewrite ?elem_of_cons in *; intuition congruence.
        -- rewrite lookup_insert_ne by congruence.
           repeat case_bool_decide; try reflexivity; exfalso;
             rewrite ?elem_of_cons in *; intuition congruence.
      * rewrite set_property_other by congruence. exact Hown.
      * rewrite (set_property_plain o p (f p) Hne). cbn [inherits].
        destruct Hin as [Hin|Hin]; [left; exact Hin|].
        right. intros H. apply Hin. apply list_elem_of_further. exact H.
Qed.

Lemma foldl_set_property_inherits (f : string -> val) (l : list string) :
  forall o,
    "__proto__"%string ∉ l ->
    inherits (foldl (fun rv k' => set_property rv k' (f k')) o l) = inherits o.
Proof.
  induction l as [|p l IH]; intros o Hl; simpl.
  - reflexivity.
  - rewrite IH by (intros H; apply Hl; apply list_elem_of_further; exact H).
    rewrite set_property_plain; [reflexivity|].
    intros ->. apply Hl. apply list_elem_of_here.
Qed.

(** ** [initialize] *)

Lemma initialize_loop_builtin defaults data (l : list string) rv :
  builtin_hasOwnProperty data ->
  foldl (fun acc k =>
           match acc with
           | Throw e => Throw e
           | Normal rv =>
               match hasOwnProperty data k with
               | Throw e => Throw e
               | Normal found =>
                   Normal (set_property rv k
                             (if found then get (own data) k
                              else get (own defaults) k))
               end
           end) (Normal rv) l
  = Normal (foldl (fun rv k =>
                     set_property rv k
                       (if owns data k then get (own data) k
                        else get (own defaults) k)) rv l).
Proof.
  intros Hb. revert rv. induction l as [|k l IH]; intros rv; simpl.
  - reflexivity.
  - rewrite (hasOwnProperty_builtin data k Hb). apply IH.
Qed.

Lemma foldl_Throw {A B} (g : completion A -> B -> completion A) (e : exn)
    (l : list B) :
  (forall b, g (Throw e) b = Throw e) -> foldl g (Throw e) l = Throw e.
Proof.
  intros Hg. induction l as [|b l IH]; simpl; [reflexivity|].
  rewrite Hg. exact IH.
Qed.

Lemma initialize_builtin defaults data :
  builtin_hasOwnProperty data ->
  Utils.initialize defaults data
  = Normal (foldl (fun rv k =>
                     set_property rv k
                       (if owns data k then get (own data) k
                        else get (own defaults) k))
                  (literal ∅) (keys (own defaults))).
Proof. intros Hb. apply initialize_loop_builtin, Hb. Qed.

Lemma lookup_initialize defaults data rv k :
  builtin_hasOwnProperty data ->
  Utils.initialize defaults data = Normal rv ->
  own rv !! k
  = if bool_decide (k = "__proto__"%string) then None
    else (fun d => default d (own data !! k)) <$> own defaults !! k.
Proof.
  intros Hb. rewrite (initialize_builtin defaults data Hb).
  intros H. injection H as <-.
  rewrite (foldl_set_property
             (fun k => if owns data k then get (own data) k
                       else get (own defaults) k));
    [|apply NoDup_keys | reflexivity | left; reflexivity].
  simpl. rewrite lookup_empty.
  destruct (decide (k = "__proto__"%string)) as [->|Hk].
  - rewrite bool_decide_eq_false_2 by (intros [_ H]; congruence).
    reflexivity.
  - rewrite (bool_decide_eq_false_2 (k = "__proto__"%string)) by exact Hk.
    destruct (own defaults !! k) as [d|] eqn:Ed; simpl.
    + rewrite bool_decide_eq_true_2
        by (split; [apply elem_of_keys; eauto | exact Hk]).
      rewrite (picked_value defaults data k d Ed).
      destruct (own data !! k); reflexivity.
    + rewrite bool_decide_eq_false_2; [reflexivity|].
      intros [H _]. apply elem_of_keys in H. rewrite Ed in H.
      destruct H as [x Hx]. discriminate.
Qed.

Example initialize_workspace_settings :
  Utils.initialize
    (literal {[ "debug" := VBool false; "color" := VStr "#aaaaaa";
                "clientLimit" := VNum 10 ]})
    (literal {[ "clientLimit" := VNum 7; "evil" := VStr "payload" ]})
  = Normal (literal {[ "debug" := VBool false; "color" := VStr "#aaaaaa";
                       "clientLimit" := VNum 7 ]}).
Proof. vm_compute. reflexivity. Qed.

(** C9, on the code.  With data that owns a property named
    [hasOwnProperty], [initialize] throws a TypeError at the first key of
    the defaults, where it was to return the merged object; and an own
    [__proto__] key of the defaults is not a key of the result, as the
    assignment to it reaches the setter of [Object.prototype].  So
    [initialize] does not merge whatever the two objects are. *)
Lemma initialize_does_not_merge_any_objects :
  Utils.initialize
    (literal {[ "x"%string := VNum 2 ]})
    (literal {[ "hasOwnProperty"%string := VNum 1; "x"%string := VNum 5 ]})
  = Throw (TypeError "hasOwnProperty is not a function")
  /\ Utils.initialize
       (literal {[ "__proto__"%string := VNum 1; "x"%string := VNum 2 ]})
       (literal ∅)
     = Normal (literal {[ "x"%string := VNum 2 ]})
  /\ ~ initialize_merges_any_objects.
Proof.
  split; [vm_compute; reflexivity|]. split; [vm_compute; reflexivity|].
  intros H.
  destruct (H (literal {[ "x"%string := VNum 2 ]})
              (literal {[ "hasOwnProperty"%string := VNum 1;
                          "x"%string := VNum 5 ]}))
    as (rv & E & _).
  vm_compute in E. discriminate E.
Qed.

(** X23.  For data whose [hasOwnProperty] is the built-in,
    [initialize(defaults, data)] returns an object, built from the empty
    one, whose keys are exactly the keys of [defaults] other than
    [__proto__]; under each such key it holds the value of [data] when [data]
    owns the key and the value of [defaults] otherwise.  A key that
    [defaults] lacks is absent from the result, whatever [data] holds under
    it. *)
Theorem initialize_merges_over_defaults_builtin defaults data :
  builtin_hasOwnProperty data ->
  exists rv,
    Utils.initialize defaults data = Normal rv
    /\ dom (own rv) = dom (own defaults) ∖ {[ "__proto__"%string ]}
    /\ forall k,
         k <> "__proto__"%string ->
         own rv !! k
         = match own defaults !! k with
           | Some d =>
               Some (match own data !! k with Some v => v | None => d end)
           | None => None
           end.
Proof.
  intros Hb.
  destruct (Utils.initialize defaults data) as [rv|e] eqn:E;
    [|rewrite (initialize_builtin defaults data Hb) in E; discriminate E].
  exists rv. split; [reflexivity|].
  pose proof (fun k => lookup_initialize defaults data rv k Hb E) as Hlk.
  split.
  - apply set_eq. intros k.
    rewrite elem_of_difference, !elem_of_dom, elem_of_singleton, Hlk.
    destruct (decide (k = "__proto__"%string)) as [->|Hk].
    + rewrite bool_decide_eq_true_2 by reflexivity.
      split; [intros [x Hx]; discriminate | intros [_ H]; congruence].
    + rewrite bool_decide_eq_false_2 by exact Hk.
      destruct (own defaults !! k) as [d|]; simpl.
      * split; [intros _; split; eauto | eauto].
      * split; [intros [x Hx]; discriminate
               | intros [[x Hx] _]; discriminate].
  - intros k Hk. rewrite Hlk, bool_decide_eq_false_2 by exact Hk.
    destruct (own defaults !! k) as [d|]; simpl; [|reflexivity].
    destruct (own data !! k); reflexivity.
Qed.

Lemma initialize_merges_over_defaults_builtin_witness :
  let defaults := literal {[ "x"%string := VNum 2; "y"%string := VNull ]} in
  let data := literal {[ "x"%string := VNum 5; "evil"%string := VStr "payload" ]} in
  builtin_hasOwnProperty data
  /\ exists rv,
       Utils.initialize defaults data = Normal rv
       /\ dom (own rv) = dom (own defaults) ∖ {[ "__proto__"%string ]}
       /\ forall k,
            k <> "__proto__"%string ->
            own rv !! k
            = match own defaults !! k with
              | Some d =>
                  Some (match own data !! k with Some v => v | None => d end)
              | None => None
              end.
Proof.
  cbv zeta.
  assert (Hb : builtin_hasOwnProperty
                 (literal {[ "x"%string := VNum 5;
                             "evil"%string := VStr "payload" ]}))
    by (split; reflexivity).
  split; [exact Hb|].
  apply (initialize_merges_over_defaults_builtin
           (literal {[ "x"%string := VNum 2; "y"%string := VNull ]})
           (literal {[ "x"%string := VNum 5;
                       "evil"%string := VStr "payload" ]}) Hb).
Defined.

(** ** [Reporter.assign] *)

Section Assign.
Variable F : list string.

Lemma assign_loop_builtin this data (l : list string) :
  builtin_hasOwnProperty data ->
  foldl (fun st p =>
           match st with
           | (this, Throw e) => (this, Throw e)
           | (this, Normal _) =>
               match hasOwnProperty data p with
               | Throw e => (this, Throw e)
               | Normal found =>
                   (if found then set_property this p (get (own data) p)
                    else this,
                    Normal tt)
               end
           end) (this, Normal tt) l
  = (foldl (fun this p =>
              if owns data p then set_property this p (get (own data) p)
              else this) this l,
     Normal tt).
Proof.
  intros Hb. revert this. induction l as [|p l IH]; intros this; simpl.
  - reflexivity.
  - rewrite (hasOwnProperty_builtin data p Hb). apply IH.
Qed.

Lemma assign_builtin this data :
  builtin_hasOwnProperty data ->
  Reporter.assign F this data
  = (foldl (fun this p =>
              if owns data p then set_property this p (get (own data) p)
              else this) this F,
     Normal tt).
Proof. intros Hb. apply assign_loop_builtin, Hb. Qed.

Lemma lookup_assign_loop data (l : list string) :
  forall this k,
    k <> "__proto__"%string \/ k ∉ l ->
    own (foldl (fun this p =>
                  if owns data p then set_property this p (get (own data) p)
                  else this) this l) !! k
    = match own data !! k with
      | Some v => if bool_decide (k ∈ l) then Some v else own this !! k
      | None => own this !! k
      end.
Proof.
  induction l as [|p l IH]; intros this k Hk; cbn [foldl].
  - destruct (own data !! k); reflexivity.
  - rewrite IH
      by (destruct Hk as [Hk|Hk]; [left; exact Hk|];
          right; intros H; apply Hk; apply list_elem_of_further; exact H).
    destruct (decide (k = p)) as [->|Hne].
    + assert (Hp : p <> "__proto__"%string).
      { destruct Hk as [Hk|Hk]; [exact Hk|].
        exfalso. apply Hk. apply list_elem_of_here. }
      rewrite (bool_decide_eq_true_2 (p ∈ p :: l)) by apply list_elem_of_here.
      destruct (own data !! p) as [v|] eqn:Ev.
      * rewrite (proj2 (owns_true data p)) by eauto.
        rewrite (set_property_plain this p _ Hp). cbn [own].
        unfold get. rewrite Ev, lookup_insert_eq. simpl.
        destruct (bool_decide (p ∈ l)); reflexivity.
      * rewrite (proj2 (owns_false data p)) by exact Ev. reflexivity.
    + assert (E : bool_decide (k ∈ p :: l) = bool_decide (k ∈ l)).
      { apply bool_decide_ext. rewrite elem_of_cons. tauto. }
      rewrite E.
      destruct (owns data p); [|reflexivity].
      rewrite set_property_other by exact Hne. reflexivity.
Qed.

Lemma inherits_assign_loop data (l : list string) :
  forall this,
    "__proto__"%string ∉ l ->
    inherits (foldl (fun this p =>
                       if owns data p
                       then set_property this p (get (own data) p)
                       else this) this l)
    = inherits this.
Proof.
  induction l as [|p l IH]; intros this Hl; cbn [foldl].
  - reflexivity.
  - rewrite IH by (intros H; apply Hl; apply list_elem_of_further; exact H).
    destruct (owns data p); [|reflexivity].
    rewrite set_property_plain; [reflexivity|].
    intros ->. apply Hl. apply list_elem_of_here.
Qed.

Lemma assign_shadowed this data :
  ~ builtin_hasOwnProperty data ->
  F <> [] ->
  Reporter.assign F this data
  = (this, Throw (TypeError "hasOwnProperty is not a function")).
Proof.
  intros Hb HF. unfold Reporter.assign.
  destruct F as [|p l]; [contradiction|]. cbn [foldl].
  rewrite (hasOwnProperty_shadowed data p Hb).
  clear. induction l as [|q l IH]; simpl; [reflexivity | exact IH].
Qed.
End Assign.

Example assign_drops_evil :
  Reporter.assign ["x"; "y"]%string
    (literal {[ "x" := VNull; "y" := VNull ]})
    (literal {[ "x" := VNum 5; "evil" := VStr "payload" ]})
  = (literal {[ "x" := VNum 5; "y" := VNull ]}, Normal tt).
Proof. vm_compute. reflexivity. Qed.




End ObjectFacts.

(* ===================================================================== *)
(** * Properties of [removeByID] and [safeRemoveByID]                     *)
(* ===================================================================== *)

Section ArrayFacts.
Context {T Class : Type}.
Variable id : T -> val.
Variable instanceof : T -> Class -> bool.
Variable toString : Class -> string.

Lemma strict_eq_true (a b : val) : strict_eq a b = true <-> a = b.
Proof. unfold strict_eq. apply bool_decide_eq_true. Qed.

Lemma strict_eq_false (a b : val) : strict_eq a b = false <-> a <> b.
Proof. unfold strict_eq. apply bool_decide_eq_false. Qed.

Lemma findIndex_from_first (pred : T -> bool) (before after : list T) (o : T) i :
  Forall (fun x => pred x = false) before ->
  pred o = true ->
  Utils.findIndex_from pred (before ++ o :: after) i
  = i + Z.of_nat (length before).
Proof.
  intros Hb Ho. revert i.
  induction Hb as [|x before Hx _ IH]; intros i; simpl.
  - rewrite Ho. lia.
  - rewrite Hx, IH. lia.
Qed.

Lemma findIndex_from_none (pred : T -> bool) (array : list T) i :
  Forall (fun x => pred x = false) array ->
  Utils.findIndex_from pred array i = -1.
Proof.
  intros H. revert i. induction H as [|x l Hx _ IH]; intros i; simpl.
  - reflexivity.
  - rewrite Hx. apply IH.
Qed.

Lemma splice1_middle (before after : list T) (o : T) :
  Utils.splice1 (before ++ o :: after) (Z.of_nat (length before))
  = before ++ after.
Proof.
  unfold Utils.splice1. rewrite Nat2Z.id.
  rewrite take_app_length.
  replace (S (length before)) with (length (before ++ [o]))
    by (rewrite length_app; simpl; lia).
  rewrite (cons_middle o before after), app_assoc, drop_app_length.
  reflexivity.
Qed.

Lemma removeByID_first (before after : list T) (o item : T) :
  Forall (fun x => id x <> id item) before ->
  id o = id item ->
  Utils.removeByID id (before ++ o :: after) item = (before ++ after, true).
Proof.
  intros Hb Ho. unfold Utils.removeByID, Utils.findIndex.
  rewrite findIndex_from_first.
  - replace (0 + Z.of_nat (length before) >=? 0) with true
      by (symmetry; apply Z.geb_le; lia).
    simpl. rewrite splice1_middle. reflexivity.
  - eapply Forall_impl; [exact Hb|]. intros x Hx.
    apply strict_eq_false. exact Hx.
  - apply strict_eq_true. exact Ho.
Qed.

Lemma removeByID_none (array : list T) (item : T) :
  Forall (fun x => id x <> id item) array ->
  Utils.removeByID id array item = (array, false).
Proof.
  intros H. unfold Utils.removeByID, Utils.findIndex.
  rewrite findIndex_from_none; [reflexivity|].
  eapply Forall_impl; [exact H|]. intros x Hx.
  apply strict_eq_false. exact Hx.
Qed.

(** C10.  [safeRemoveByID(array, item, C)] throws, leaving the array as it
    was, when [item] is not an instance of [C].  Otherwise it takes out the
    first element whose id is [item.id] (only that one) and returns true; and
    when no element has that id, it returns false and the array is as it
    was. *)
Theorem safeRemoveByID_removes_first_match
    (array : list T) (item : T) (C : Class) :
  (instanceof item C = false ->
     Utils.safeRemoveByID id instanceof toString array item C
     = (array, Throw (ThrownString ("Invalid " ++ toString C ++ " received."))))
  /\ (instanceof item C = true ->
      forall before o after,
        array = before ++ o :: after ->
        Forall (fun x => id x <> id item) before ->
        id o = id item ->
        Utils.safeRemoveByID id instanceof toString array item C
        = (before ++ after, Normal true))
  /\ (instanceof item C = true ->
      Forall (fun x => id x <> id item) array ->
      Utils.safeRemoveByID id instanceof toString array item C
      = (array, Normal false)).
Proof.
  unfold Utils.safeRemoveByID. repeat split.
  - intros ->. reflexivity.
  - intros -> before o after -> Hb Ho. simpl.
    rewrite removeByID_first by assumption. reflexivity.
  - intros -> H. simpl. rewrite removeByID_none by assumption. reflexivity.
Qed.

End ArrayFacts.

Example safeRemoveByID_second_of_three :
  Utils.safeRemoveByID (fun o : Z * string => VNum (fst o))
    (fun _ (c : bool) => c) (fun _ => "Item"%string)
    [(1, "a"); (2, "b"); (2, "c")]%string (2, "z"%string) true
  = ([(1, "a"); (2, "c")]%string, Normal true).
Proof. reflexivity. Qed.


(* ===================================================================== *)
(** * Properties of the id stamper                                        *)
(* ===================================================================== *)

Section StamperFacts.
Import IDStamper.
Local Arguments next : simpl never.
Local Arguments round_to_double : simpl never.

(** ** The counter *)

Lemma round_to_double_exact (n : Z) : n < 2 ^ 53 -> round_to_double n = n.
Proof.
  intros H. unfold round_to_double.
  apply Z.ltb_lt in H. rewrite H. reflexivity.
Qed.

Lemma round_to_double_ceiling : round_to_double (2 ^ 53) = 2 ^ 53.
Proof. reflexivity. Qed.

(** 2^53 + 1 lies halfway between two doubles and rounds back to 2^53. *)
Lemma round_to_double_tie : round_to_double (2 ^ 53 + 1) = 2 ^ 53.
Proof. reflexivity. Qed.

Lemma number_add_1_exact (n : Z) : 0 <= n < 2 ^ 53 -> number_add n 1 = n + 1.
Proof.
  intros [_ H]. unfold number_add.
  destruct (Z.eq_dec (n + 1) (2 ^ 53)) as [E|E].
  - rewrite E. apply round_to_double_ceiling.
  - apply round_to_double_exact. lia.
Qed.

Lemma willNotOverflow_below (n : Z) :
  0 <= n < 2 ^ 53 -> willNotOverflow n = true.
Proof.
  intros H. unfold willNotOverflow. rewrite number_add_1_exact by exact H.
  apply Z.gtb_lt. lia.
Qed.

Lemma willNotOverflow_ceiling : willNotOverflow (2 ^ 53) = false.
Proof. reflexivity. Qed.

Lemma next_below (n : Z) :
  0 <= n < 2 ^ 53 ->
  next (Suspended n)
  = (Suspended (n + 1), {| value := VNum (n + 1); done := false |}).
Proof.
  intros H. unfold next.
  rewrite willNotOverflow_below, number_add_1_exact by exact H. reflexivity.
Qed.

Lemma next_ceiling :
  next (Suspended (2 ^ 53))
  = (Completed, {| value := VUndefined; done := true |}).
Proof. reflexivity. Qed.

(** ** [stamp] *)

Lemma stamp_unfold (this : IDStamper) (obj : Obj) (id : val) :
  stamp this obj id
  = let this' := if strict_eq id VUndefined
                 then {| gen := fst (next (gen this)) |} else this in
    match defineProperty obj "id" (stamped_id (id_to_write this id)) with
    | Throw e => (this', obj, Throw e)
    | Normal obj' => (this', obj', Normal (get_own obj' "id"))
    end.
Proof.
  unfold stamp, id_to_write.
  destruct (strict_eq id VUndefined); [|reflexivity].
  destruct (next (gen this)) as [g r]. reflexivity.
Qed.

Lemma defineProperty_Normal (o o' : Obj) (k : string) (d : PropertyDescriptor) :
  defineProperty o k d = Normal o' ->
  o' = {| properties := <[k := d]> (properties o);
          extensible := extensible o |}.
Proof.
  unfold defineProperty. intros H.
  destruct (properties o !! k) as [current|].
  - destruct (redefinable current d); congruence.
  - destruct (extensible o); congruence.
Qed.

Lemma get_own_defineProperty (o o' : Obj) (k : string) (d : PropertyDescriptor) :
  defineProperty o k d = Normal o' -> get_own o' k = JS.value d.
Proof.
  intros H. apply defineProperty_Normal in H. subst o'.
  unfold get_own. simpl. rewrite lookup_insert_eq. reflexivity.
Qed.

(** A successful [stamp] returns the id it was to write, and leaves it on
    the object as an immutable, enumerable property. *)
Lemma stamp_Normal (this this' : IDStamper) (obj obj' : Obj) (id r : val) :
  stamp this obj id = (this', obj', Normal r) ->
  r = id_to_write this id /\ stamped_with obj' r.
Proof.
  rewrite stamp_unfold. simpl.
  destruct (defineProperty obj "id" _) as [o|e] eqn:E; [|congruence].
  intros H. injection H as _ <- <-.
  rewrite (get_own_defineProperty _ _ _ _ E). split; [reflexivity|].
  apply defineProperty_Normal in E. subst o.
  unfold stamped_with. simpl. apply lookup_insert_eq.
Qed.

(** On an extensible object with no [id] of its own, [stamp] returns. *)
Lemma stamp_fresh_object (this : IDStamper) (obj : Obj) (id : val) :
  extensible obj = true ->
  properties obj !! "id"%string = None ->
  snd (stamp this obj id) = Normal (id_to_write this id).
Proof.
  intros He Hp. rewrite stamp_unfold. unfold defineProperty.
  rewrite Hp, He. simpl. unfold get_own. simpl.
  rewrite lookup_insert_eq. reflexivity.
Qed.

Lemma stamp_request_below (n : Z) (this' : IDStamper) (obj obj' : Obj)
    (c : completion val) :
  0 <= n < 2 ^ 53 ->
  stamp {| gen := Suspended n |} obj VUndefined = (this', obj', c) ->
  this' = {| gen := Suspended (n + 1) |}
  /\ forall a, c = Normal a -> a = VNum (n + 1).
Proof.
  intros Hn H. split.
  - rewrite stamp_unfold in H. simpl in H. rewrite (next_below n Hn) in H.
    simpl in H.
    destruct (defineProperty obj "id" _); congruence.
  - intros a ->. apply stamp_Normal in H. destruct H as [-> _].
    unfold id_to_write. simpl. rewrite (next_below n Hn). reflexivity.
Qed.

Lemma stamp_explicit (this this' : IDStamper) (obj obj' : Obj) (id : val)
    (c : completion val) :
  strict_eq id VUndefined = false ->
  stamp this obj id = (this', obj', c) ->
  this' = this.
Proof.
  intros Hid. rewrite stamp_unfold, Hid. simpl.
  destruct (defineProperty obj "id" _); congruence.
Qed.

(** ** Stamping an object that carries an id *)

Example stamp_first :
  stamp IDStamper.new empty_object VUndefined
  = ({| gen := Suspended 1 |},
     {| properties := {[ "id"%string := stamped_id (VNum 1) ]};
        extensible := true |},
     Normal (VNum 1)).
Proof. reflexivity. Qed.

Example stamp_over_plain_id :
  stamp IDStamper.new
    {| properties := {[ "id"%string := plain (VNum 5) ]}; extensible := true |}
    (VNum 8)
  = (IDStamper.new,
     {| properties := {[ "id"%string := stamped_id (VNum 8) ]};
        extensible := true |},
     Normal (VNum 8)).
Proof. reflexivity. Qed.

Example stamp_frozen_object :
  stamp IDStamper.new {| properties := ∅; extensible := false |} VUndefined
  = ({| gen := Suspended 1 |}, {| properties := ∅; extensible := false |},
     Throw (TypeError "Cannot define property id, object is not extensible")).
Proof. reflexivity. Qed.

(** C5, as stated, fails.  The object [{}] stamped by a new stamper carries
    the id 1; a second [stamp] of it, with the explicit id 7 or with none
    (the stamper then generates 2), throws a TypeError.  The id stays 1. *)
Lemma restamp_with_another_id_throws :
  let obj1 := {| properties := {[ "id"%string := stamped_id (VNum 1) ]};
                 extensible := true |} in
  let this1 := {| gen := Suspended 1 |} in
  stamp IDStamper.new empty_object VUndefined = (this1, obj1, Normal (VNum 1))
  /\ stamp this1 obj1 (VNum 7)
     = (this1, obj1, Throw (TypeError "Cannot redefine property: id"))
  /\ stamp this1 obj1 VUndefined
     = ({| gen := Suspended 2 |}, obj1,
        Throw (TypeError "Cannot redefine property: id"))
  /\ ~ restamp_never_throws.
Proof.
  cbv zeta. repeat split.
  intros H.
  assert (Hs : stamped_with
                 {| properties := {[ "id"%string := stamped_id (VNum 1) ]};
                    extensible := true |} (VNum 1)) by reflexivity.
  destruct (H {| gen := Suspended 1 |} _ _ (VNum 7) Hs)
    as (this' & obj' & r & E & _).
  discriminate E.
Qed.

(** C5, amended.  A [stamp] of an object that carries the id [v] leaves the
    object, and so its id, as it was.  The call returns [v] when the id it was
    to write (the explicit one, or else the next of the generator) is [v]
    itself; with any other id it throws a TypeError. *)
Theorem restamp_keeps_id (this : IDStamper) (obj : Obj) (v id : val) :
  stamped_with obj v ->
  exists this',
    stamp this obj id
    = (this', obj,
       if SameValue (id_to_write this id) v
       then Normal v
       else Throw (TypeError "Cannot redefine property: id")).
Proof.
  intros Hv. rewrite stamp_unfold. cbv zeta.
  eexists. unfold defineProperty. rewrite Hv.
  unfold redefinable. simpl.
  destruct (SameValue (id_to_write this id) v) eqn:E; [|reflexivity].
  apply bool_decide_eq_true in E. rewrite E.
  unfold get_own. simpl. rewrite lookup_insert_eq. simpl.
  rewrite (insert_id _ _ _ Hv). destruct obj; reflexivity.
Qed.

Lemma restamp_keeps_id_witness :
  let obj1 := {| properties := {[ "id"%string := stamped_id (VNum 1) ]};
                 extensible := true |} in
  stamped_with obj1 (VNum 1)
  /\ exists this',
       stamp IDStamper.new obj1 (VNum 1)
       = (this', obj1,
          if SameValue (id_to_write IDStamper.new (VNum 1)) (VNum 1)
          then Normal (VNum 1)
          else Throw (TypeError "Cannot redefine property: id")).
Proof.
  cbv zeta. split.
  - reflexivity.
  - apply (restamp_keeps_id IDStamper.new
             {| properties := {[ "id"%string := stamped_id (VNum 1) ]};
                extensible := true |} (VNum 1) (VNum 1)).
    reflexivity.
Defined.

(** ** Series of calls *)

Lemma requests_cons_request (obj : Obj) (calls : list (Obj * val)) :
  requests ((obj, VUndefined) :: calls) = S (requests calls).
Proof. reflexivity. Qed.

Lemma requests_cons_explicit (obj : Obj) (id : val) (calls : list (Obj * val)) :
  strict_eq id VUndefined = false ->
  requests ((obj, id) :: calls) = requests calls.
Proof. intros H. unfold requests. simpl. rewrite H. reflexivity. Qed.

Lemma requests_app (l1 l2 : list (Obj * val)) :
  requests (l1 ++ l2) = (requests l1 + requests l2)%nat.
Proof. unfold requests. rewrite List.filter_app, length_app. reflexivity. Qed.

Lemma requests_take_lt (calls : list (Obj * val)) (i j : nat) (obj : Obj) :
  (i < j)%nat ->
  calls !! i = Some (obj, VUndefined) ->
  (requests (take i calls) < requests (take j calls))%nat.
Proof.
  intros Hij Hi.
  assert (Hlen : (i < length calls)%nat) by (eapply lookup_lt_Some; exact Hi).
  rewrite <- (take_drop_middle calls i _ Hi) at 2.
  replace j with (length (take i calls) + S (j - S i))%nat
    by (rewrite length_take; lia).
  rewrite take_app_add. simpl.
  rewrite requests_app, requests_cons_request. lia.
Qed.

(** The [i]-th call, when it asks for a generated id and returns, returns
    the counter as the earlier requests left it, plus one. *)
Lemma stamp_all_request (calls : list (Obj * val)) :
  forall (n : Z) (i : nat) (obj : Obj) (a : val),
    0 <= n ->
    n + Z.of_nat (requests calls) <= 2 ^ 53 ->
    calls !! i = Some (obj, VUndefined) ->
    snd (stamp_all {| gen := Suspended n |} calls) !! i = Some (Normal a) ->
    a = VNum (n + Z.of_nat (requests (take i calls)) + 1).
Proof.
  induction calls as [|[obj0 id0] rest IH]; intros n i obj a Hn Hb Hi Ha.
  - discriminate Hi.
  - simpl in Ha.
    destruct (stamp {| gen := Suspended n |} obj0 id0)
      as [[this' obj'] c] eqn:Es.
    destruct (stamp_all this' rest) as [this'' cs] eqn:Er.
    simpl in Ha.
    destruct (strict_eq id0 VUndefined) eqn:Eid.
    + apply strict_eq_true in Eid. subst id0.
      rewrite requests_cons_request in Hb.
      assert (Hn' : 0 <= n < 2 ^ 53) by lia.
      destruct (stamp_request_below n this' obj0 obj' c Hn' Es) as [-> Hc].
      destruct i as [|i'].
      * simpl in Ha. injection Ha as ->.
        rewrite (Hc a eq_refl). f_equal. simpl. unfold requests. simpl. lia.
      * simpl in Hi, Ha.
        assert (E : a = VNum (n + 1 + Z.of_nat (requests (take i' rest)) + 1)).
        { apply (IH (n + 1) i' obj a); [lia | lia | exact Hi |].
          rewrite Er. exact Ha. }
        rewrite E. f_equal. simpl take. rewrite requests_cons_request. lia.
    + rewrite (requests_cons_explicit _ _ _ Eid) in Hb.
      pose proof (stamp_explicit _ _ _ _ _ _ Eid Es) as ->.
      destruct i as [|i'].
      * simpl in Hi. injection Hi as _ ->. discriminate Eid.
      * simpl in Hi, Ha. simpl take.
        rewrite (requests_cons_explicit _ _ _ Eid).
        apply (IH n i' obj a); [lia | lia | exact Hi |].
        rewrite Er. exact Ha.
Qed.

(** C7.  Take any series of [stamp] calls on one new stamper in which at
    most 2^53 ask for a generated id, and two of those, the [i]-th before
    the [j]-th, that return.  The ids they return are integers, the earlier
    one is positive and the later one is strictly larger (so they differ);
    the earlier one is the number of requests before it plus one, which is 1
    for the first request. *)
Theorem generated_ids_increase
    (calls : list (Obj * val)) (i j : nat) (oi oj : Obj) (a b : val) :
  Z.of_nat (requests calls) <= 2 ^ 53 ->
  (i < j)%nat ->
  calls !! i = Some (oi, VUndefined) ->
  calls !! j = Some (oj, VUndefined) ->
  snd (stamp_all IDStamper.new calls) !! i = Some (Normal a) ->
  snd (stamp_all IDStamper.new calls) !! j = Some (Normal b) ->
  exists x y,
    a = VNum x /\ b = VNum y /\ 0 < x /\ x < y
    /\ x = Z.of_nat (requests (take i calls)) + 1.
Proof.
  intros Hb Hij Hi Hj Ha Hbj.
  pose proof (stamp_all_request calls 0 i oi a (Z.le_refl 0) Hb Hi Ha) as Ea.
  pose proof (stamp_all_request calls 0 j oj b (Z.le_refl 0) Hb Hj Hbj) as Eb.
  pose proof (requests_take_lt calls i j oi Hij Hi) as Hlt.
  exists (Z.of_nat (requests (take i calls)) + 1),
         (Z.of_nat (requests (take j calls)) + 1).
  rewrite Ea, Eb. repeat split; try lia; f_equal; lia.
Qed.

Lemma generated_ids_increase_witness :
  let calls := [ (empty_object, VUndefined); (empty_object, VNum 9);
                 (empty_object, VUndefined) ] in
  snd (stamp_all IDStamper.new calls)
  = [ Normal (VNum 1); Normal (VNum 9); Normal (VNum 2) ]
  /\ exists x y,
       VNum 1 = VNum x /\ VNum 2 = VNum y /\ 0 < x /\ x < y
       /\ x = Z.of_nat (requests (take 0 calls)) + 1.
Proof.
  cbv zeta. split.
  - reflexivity.
  - apply (generated_ids_increase
             [ (empty_object, VUndefined); (empty_object, VNum 9);
               (empty_object, VUndefined) ]
             0 2 empty_object empty_object (VNum 1) (VNum 2)).
    + vm_compute. discriminate.
    + lia.
    + reflexivity.
    + reflexivity.
    + reflexivity.
    + reflexivity.
Defined.

(** ** The exhausted counter *)

Lemma request_below (n : Z) :
  0 <= n < 2 ^ 53 ->
  request {| gen := Suspended n |} = {| gen := Suspended (n + 1) |}.
Proof.
  intros Hn. unfold request.
  destruct (stamp {| gen := Suspended n |} empty_object VUndefined)
    as [[this' obj'] c] eqn:E.
  apply (stamp_request_below n this' empty_object obj' c Hn E).
Qed.

Lemma requests_reach (p : positive) :
  Z.pos p <= 2 ^ 53 ->
  Pos.iter request IDStamper.new p = {| gen := Suspended (Z.pos p) |}.
Proof.
  apply (Pos.iter_ind _ request IDStamper.new
           (fun p this => Z.pos p <= 2 ^ 53 ->
                          this = {| gen := Suspended (Z.pos p) |})).
  - intros _. reflexivity.
  - intros q this IHq Hq. rewrite IHq by lia.
    rewrite request_below by lia. rewrite Pos2Z.inj_succ. reflexivity.
Qed.

(** C6, on the code.  After 2^53 generated ids the stamper's counter stands
    at 2^53, where [x + 1 > x] is false.  The next [stamp({})] ends the
    generator and returns [undefined], having written [undefined] as the id;
    so does every later one.  No call throws. *)
Theorem stamp_at_ceiling_returns_undefined :
  let ceiling := Z.iter (2 ^ 53) request IDStamper.new in
  let unidentified :=
    {| properties := {[ "id"%string := stamped_id VUndefined ]};
       extensible := true |} in
  ceiling = {| gen := Suspended (2 ^ 53) |}
  /\ stamp ceiling empty_object VUndefined
     = ({| gen := Completed |}, unidentified, Normal VUndefined)
  /\ stamp {| gen := Completed |} empty_object VUndefined
     = ({| gen := Completed |}, unidentified, Normal VUndefined).
Proof.
  cbv zeta.
  assert (E : Z.iter (2 ^ 53) request IDStamper.new
              = {| gen := Suspended (2 ^ 53) |}).
  { change (2 ^ 53) with (Z.pos 9007199254740992) at 1.
    unfold Z.iter. rewrite requests_reach; [reflexivity|].
    apply Z.le_refl. }
  rewrite E. repeat split.
Qed.

End StamperFacts.

(* ===================================================================== *)
(** * Properties of the publication scheduler                             *)
(* ===================================================================== *)

Section PublishableFacts.
Import Publishable.
Implicit Types (e this target : nat) (w : World) (body : list action).

(** ** [publish] *)

Lemma not_scheduled_false e w :
  not_scheduled e w = false <-> scheduled w !! e = Some true.
Proof.
  unfold not_scheduled.
  destruct (scheduled w !! e) as [[|]|]; split; congruence.
Qed.

(** A [publish()] on an entity whose flag is set changes nothing at all. *)
Lemma publish_scheduled e w :
  scheduled w !! e = Some true -> publish e w = w.
Proof.
  intros H. unfold publish.
  rewrite (proj2 (not_scheduled_false e w) H). reflexivity.
Qed.

Lemma publish_sets_flag e w : scheduled (publish e w) !! e = Some true.
Proof.
  unfold publish. destruct (not_scheduled e w) eqn:E; simpl.
  - apply lookup_insert_eq.
  - apply not_scheduled_false. exact E.
Qed.

Lemma publish_other_flag e target w :
  target <> e -> scheduled (publish target w) !! e = scheduled w !! e.
Proof.
  intros Hne. unfold publish. destruct (not_scheduled target w); simpl.
  - apply lookup_insert_ne. exact Hne.
  - reflexivity.
Qed.

Lemma publish_other_count e target w :
  target <> e -> count (immediates (publish target w)) e = count (immediates w) e.
Proof.
  intros Hne. unfold publish. destruct (not_scheduled target w); simpl.
  - rewrite count_occ_app. simpl.
    destruct (Nat.eq_dec target e); [contradiction | lia].
  - reflexivity.
Qed.

Lemma publish_new_count e w :
  not_scheduled e w = true ->
  count (immediates (publish e w)) e = S (count (immediates w) e).
Proof.
  intros H. unfold publish. rewrite H. simpl.
  rewrite count_occ_app. simpl.
  destruct (Nat.eq_dec e e); [lia | contradiction].
Qed.

Lemma publish_emissions target w : emissions (publish target w) = emissions w.
Proof. unfold publish. destruct (not_scheduled target w); reflexivity. Qed.

Lemma publish_pending_once e target w :
  pending_once e w -> pending_once e (publish target w).
Proof.
  unfold pending_once. intros H.
  destruct (Nat.eq_dec target e) as [->|Hne].
  - rewrite publish_sets_flag.
    destruct (not_scheduled e w) eqn:E.
    + rewrite publish_new_count by exact E. rewrite H.
      unfold not_scheduled in E.
      destruct (scheduled w !! e) as [[|]|]; congruence.
    + apply not_scheduled_false in E.
      rewrite publish_scheduled by exact E. rewrite H, E. reflexivity.
  - rewrite publish_other_flag, publish_other_count by exact Hne. exact H.
Qed.

(** ** The calls of one turn *)

Lemma publish_each_snoc (turn : list nat) e w :
  publish_each (turn ++ [e]) w = publish e (publish_each turn w).
Proof. unfold publish_each. rewrite foldl_snoc. reflexivity. Qed.

Lemma publish_each_pending_once (turn : list nat) e w :
  pending_once e w -> pending_once e (publish_each turn w).
Proof.
  unfold publish_each. revert w.
  induction turn as [|t turn IH]; intros w H; simpl.
  - exact H.
  - apply IH, publish_pending_once, H.
Qed.

Lemma publish_each_sets_flag (turn : list nat) e w :
  In e turn -> scheduled (publish_each turn w) !! e = Some true.
Proof.
  induction turn as [|t turn IH] using rev_ind; intros Hin.
  - contradiction.
  - rewrite publish_each_snoc.
    destruct (Nat.eq_dec t e) as [->|Hne].
    + apply publish_sets_flag.
    + rewrite publish_other_flag by exact Hne. apply IH.
      apply in_app_or in Hin. destruct Hin as [Hin|[Hin|[]]];
        [exact Hin | contradiction].
Qed.

Lemma publish_each_emissions (turn : list nat) w :
  emissions (publish_each turn w) = emissions w.
Proof.
  unfold publish_each. revert w.
  induction turn as [|t turn IH]; intros w; simpl.
  - reflexivity.
  - rewrite IH. apply publish_emissions.
Qed.

Section Mixin.
Variable emitPublication : nat -> list action.

(** ** The deferred emission *)

Lemma run_emissions this body w : emissions (fst (run this body w)) = emissions w.
Proof.
  revert w. induction body as [|[target| |s] rest IH]; intros w; simpl.
  - reflexivity.
  - rewrite IH. apply publish_emissions.
  - rewrite IH. reflexivity.
  - reflexivity.
Qed.

Lemma run_quiet this body w :
  quiet body = true -> snd (run this body w) = Normal tt.
Proof.
  revert w. induction body as [|[target| |s] rest IH]; intros w H; simpl.
  - reflexivity.
  - apply IH. exact H.
  - apply IH. exact H.
  - discriminate H.
Qed.

(** Once the flag of [e] is set, the rest of a body leaves [e] alone. *)
Lemma run_keeps_scheduled this body e w :
  scheduled w !! e = Some true ->
  scheduled (fst (run this body w)) !! e = Some true
  /\ count (immediates (fst (run this body w))) e = count (immediates w) e.
Proof.
  revert w. induction body as [|[target| |s] rest IH]; intros w H; simpl.
  - auto.
  - destruct (Nat.eq_dec target e) as [->|Hne].
    + rewrite publish_scheduled by exact H. apply IH, H.
    + destruct (IH (publish target w)) as [Hf Hc].
      * rewrite publish_other_flag by exact Hne. exact H.
      * split; [exact Hf|]. rewrite Hc. apply publish_other_count, Hne.
  - apply (IH {| scheduled := scheduled w; immediates := immediates w;
                 emissions := emissions w; wire := wire w ++ [this] |}), H.
  - auto.
Qed.

(** A body that calls [e.publish()] while the flag of [e] is clear sets the
    flag and queues [e] once more. *)
Lemma run_schedules this body e w :
  In (CallPublish e) body ->
  quiet body = true ->
  not_scheduled e w = true ->
  scheduled (fst (run this body w)) !! e = Some true
  /\ count (immediates (fst (run this body w))) e = S (count (immediates w) e).
Proof.
  revert w. induction body as [|[target| |s] rest IH]; intros w Hin Hq Hns.
  - contradiction.
  - simpl. destruct (Nat.eq_dec target e) as [->|Hne].
    + destruct (run_keeps_scheduled this rest e (publish e w)
                  (publish_sets_flag e w)) as [Hf Hc].
      split; [exact Hf|]. rewrite Hc. apply publish_new_count, Hns.
    + destruct (IH (publish target w)) as [Hf Hc].
      * destruct Hin as [Hin|Hin]; [congruence | exact Hin].
      * exact Hq.
      * unfold not_scheduled in *.
        rewrite publish_other_flag by exact Hne. exact Hns.
      * split; [exact Hf|]. rewrite Hc. f_equal.
        apply publish_other_count, Hne.
  - simpl.
    destruct Hin as [Hin|Hin]; [discriminate Hin|].
    apply (IH {| scheduled := scheduled w; immediates := immediates w;
                 emissions := emissions w; wire := wire w ++ [this] |});
      assumption.
  - discriminate Hq.
Qed.

Lemma emit_unfold this w :
  emit emitPublication this w
  = run this (emitPublication this)
      {| scheduled := <[this := false]> (scheduled w);
         immediates := immediates w;
         emissions := emissions w ++ [this];
         wire := wire w |}.
Proof. reflexivity. Qed.

Lemma emit_emissions this w :
  emissions (fst (emit emitPublication this w)) = emissions w ++ [this].
Proof. unfold emit. rewrite run_emissions. reflexivity. Qed.

Lemma emit_quiet this w :
  quiet (emitPublication this) = true ->
  snd (emit emitPublication this w) = Normal tt.
Proof. intros H. unfold emit. apply run_quiet, H. Qed.

Lemma run_immediates_quiet (queue : list nat) w :
  Forall (fun t => quiet (emitPublication t) = true) queue ->
  exists w',
    run_immediates emitPublication queue w = (w', Normal tt)
    /\ emissions w' = emissions w ++ queue.
Proof.
  intros H. revert w. induction H as [|t queue Ht _ IH]; intros w; simpl.
  - exists w. rewrite app_nil_r. auto.
  - pose proof (emit_quiet t w Ht) as Hn.
    pose proof (emit_emissions t w) as He.
    destruct (emit emitPublication t w) as [w1 c]. simpl in Hn, He. subst c.
    destruct (IH w1) as (w' & Hr & Hw'). exists w'. split; [exact Hr|].
    rewrite Hw', He, <- app_assoc. reflexivity.
Qed.

(** A flush whose callbacks do not throw calls [emitPublication] once for
    every entry of the queue, in the order of the queue. *)
Lemma flush_quiet w :
  Forall (fun t => quiet (emitPublication t) = true) (immediates w) ->
  exists w',
    flush emitPublication w = (w', Normal tt)
    /\ emissions w' = emissions w ++ immediates w.
Proof.
  intros H. unfold flush.
  exact (run_immediates_quiet (immediates w)
           {| scheduled := scheduled w; immediates := [];
              emissions := emissions w; wire := wire w |} H).
Qed.

(** C3.  In a turn that calls [publish()] on the entity [e] N > 1 times
    (among calls on other entities), starting where [e] is queued exactly
    when its flag is set: every call on [e] after the first leaves the flags
    and the queue as they are; at the end of the turn [e] is queued once;
    and the flush of that turn, run to its end, calls the [emitPublication]
    of [e] exactly once. *)
Theorem publish_repeated_emits_once
    (turn : list nat) (e : nat) (w : World) (N : nat) :
  count turn e = N ->
  (1 < N)%nat ->
  pending_once e w ->
  Forall (fun t => quiet (emitPublication t) = true)
         (immediates (publish_each turn w)) ->
  (forall before after,
      turn = before ++ e :: after -> In e before ->
      publish_each (before ++ [e]) w = publish_each before w)
  /\ count (immediates (publish_each turn w)) e = 1%nat
  /\ exists w',
       flush emitPublication (publish_each turn w) = (w', Normal tt)
       /\ count (emissions w') e = S (count (emissions w) e).
Proof.
  intros HN Hgt Hp Hq.
  assert (Hin : In e turn) by (apply (count_occ_In Nat.eq_dec); lia).
  assert (Hone : count (immediates (publish_each turn w)) e = 1%nat).
  { pose proof (publish_each_pending_once turn e w Hp) as H.
    unfold pending_once in H.
    rewrite (publish_each_sets_flag turn e w Hin) in H. exact H. }
  split; [|split].
  - intros before after _ Hb. rewrite publish_each_snoc.
    apply publish_scheduled, publish_each_sets_flag, Hb.
  - exact Hone.
  - destruct (flush_quiet _ Hq) as (w' & Hf & He). exists w'.
    split; [exact Hf|].
    rewrite He, count_occ_app, publish_each_emissions, Hone. lia.
Qed.

(** C4.  The deferred emission of [e] runs [emitPublication] in the world
    where the flag of [e] has already been cleared.  So when that body calls
    [e.publish()], whatever the flag was before, the emission ends with the
    flag set and [e] queued once more, for the next flush; the body was
    called once. *)
Theorem publish_during_emit_schedules_again (e : nat) (w : World) :
  In (CallPublish e) (emitPublication e) ->
  quiet (emitPublication e) = true ->
  exists w',
    emit emitPublication e w = (w', Normal tt)
    /\ run e (emitPublication e)
         {| scheduled := <[e := false]> (scheduled w);
            immediates := immediates w;
            emissions := emissions w ++ [e];
            wire := wire w |} = (w', Normal tt)
    /\ scheduled w' !! e = Some true
    /\ count (immediates w') e = S (count (immediates w) e)
    /\ emissions w' = emissions w ++ [e].
Proof.
  intros Hin Hq.
  pose proof (emit_quiet e w Hq) as Hn.
  pose proof (emit_emissions e w) as He.
  rewrite emit_unfold in *.
  set (w1 := {| scheduled := <[e := false]> (scheduled w);
                immediates := immediates w;
                emissions := emissions w ++ [e];
                wire := wire w |}) in *.
  assert (Hns : not_scheduled e w1 = true).
  { unfold not_scheduled, w1. simpl. rewrite lookup_insert_eq. reflexivity. }
  destruct (run_schedules e (emitPublication e) e w1 Hin Hq Hns) as [Hf Hc].
  destruct (run e (emitPublication e) w1) as [w' c].
  simpl in Hn, He, Hf, Hc. subst c.
  exists w'. auto 6.
Qed.

End Mixin.

(** ** The invariant of the scheduler *)

Section Invariant.
Variable emitPublication : nat -> list action.

Lemma boot_pending_once e : pending_once e boot.
Proof. reflexivity. Qed.

Lemma publish_pending_split (queue : list nat) target w :
  pending_split queue w -> pending_split queue (publish target w).
Proof.
  intros H e. specialize (H e).
  destruct (Nat.eq_dec target e) as [->|Hne].
  - rewrite publish_sets_flag.
    destruct (not_scheduled e w) eqn:E.
    + rewrite publish_new_count by exact E.
      unfold not_scheduled in E.
      destruct (scheduled w !! e) as [[|]|]; try discriminate E; lia.
    + apply not_scheduled_false in E.
      rewrite publish_scheduled by exact E. rewrite H, E. reflexivity.
  - rewrite publish_other_flag, publish_other_count by exact Hne. exact H.
Qed.

Lemma run_pending_split (queue : list nat) this body w :
  pending_split queue w -> pending_split queue (fst (run this body w)).
Proof.
  revert w. induction body as [|[target| |s] rest IH]; intros w H; simpl.
  - exact H.
  - apply IH, publish_pending_split, H.
  - apply IH. exact H.
  - exact H.
Qed.

Lemma emit_pending_split (queue : list nat) this w :
  pending_split (this :: queue) w ->
  pending_split queue (fst (emit emitPublication this w)).
Proof.
  intros H. rewrite emit_unfold. apply run_pending_split.
  intros e. specialize (H e). simpl in H. simpl.
  destruct (Nat.eq_dec this e) as [->|Hne].
  - rewrite lookup_insert_eq.
    destruct (scheduled w !! e) as [[|]|]; lia.
  - rewrite lookup_insert_ne by exact Hne. exact H.
Qed.

Lemma run_immediates_pending_split (queue : list nat) w w' :
  pending_split queue w ->
  run_immediates emitPublication queue w = (w', Normal tt) ->
  pending_split [] w'.
Proof.
  revert w. induction queue as [|t queue IH]; intros w H Hr; simpl in Hr.
  - injection Hr as <-. exact H.
  - pose proof (emit_pending_split queue t w H) as H1.
    destruct (emit emitPublication t w) as [w1 [[]|x]]; [|discriminate Hr].
    apply (IH w1 H1 Hr).
Qed.

(** Every entity is queued exactly when its flag is set, and then once:
    true when the process starts, kept by [publish] and by a flush. *)
Lemma flush_pending_once w w' :
  (forall e, pending_once e w) ->
  flush emitPublication w = (w', Normal tt) ->
  forall e, pending_once e w'.
Proof.
  intros H Hf e. unfold flush in Hf.
  apply run_immediates_pending_split in Hf.
  - specialize (Hf e). simpl in Hf. unfold pending_once. rewrite <- Hf. lia.
  - intros e'. simpl. apply (H e').
Qed.

End Invariant.

Example republishing_entity_is_emitted_every_flush :
  let emitPublication := fun _ : nat => [Transmit; CallPublish 4%nat] in
  let '(w1, _) := flush emitPublication (publish 4%nat boot) in
  let '(w2, _) := flush emitPublication w1 in
  immediates w1 = [4%nat] /\ emissions w1 = [4%nat]
  /\ immediates w2 = [4%nat] /\ emissions w2 = [4; 4]%nat.
Proof. repeat split. Qed.

Example unimplemented_emitPublication_throws :
  flush (fun _ => unimplemented) (publish 0%nat boot)
  = ({| scheduled := {[ 0%nat := false ]}; immediates := [];
        emissions := [0%nat]; wire := [] |},
     Throw (ThrownString
       "Classes using Publishable mixin must implement emitPublication()")).
Proof. reflexivity. Qed.

Lemma publish_repeated_emits_once_witness :
  let emitPublication := fun _ : nat => [Transmit] in
  let turn := [3; 5; 3; 3]%nat in
  immediates (publish_each turn boot) = [3; 5]%nat
  /\ exists w',
       flush emitPublication (publish_each turn boot) = (w', Normal tt)
       /\ count (emissions w') 3%nat = S (count (emissions boot) 3%nat).
Proof.
  cbv zeta. split.
  - reflexivity.
  - apply (publish_repeated_emits_once (fun _ : nat => [Transmit])
             [3; 5; 3; 3]%nat 3%nat boot 3%nat).
    + reflexivity.
    + lia.
    + reflexivity.
    + repeat constructor.
Defined.

Lemma publish_during_emit_schedules_again_witness :
  let emitPublication := fun _ : nat => [Transmit; CallPublish 4%nat] in
  let w := publish 4%nat boot in
  In (CallPublish 4%nat) (emitPublication 4%nat)
  /\ exists w',
       emit emitPublication 4%nat w = (w', Normal tt)
       /\ run 4%nat (emitPublication 4%nat)
            {| scheduled := <[4%nat := false]> (scheduled w);
               immediates := immediates w;
               emissions := emissions w ++ [4%nat];
               wire := wire w |} = (w', Normal tt)
       /\ scheduled w' !! 4%nat = Some true
       /\ count (immediates w') 4%nat = S (count (immediates w) 4%nat)
       /\ emissions w' = emissions w ++ [4%nat].
Proof.
  cbv zeta. split.
  - right. left. reflexivity.
  - apply (publish_during_emit_schedules_again
             (fun _ : nat => [Transmit; CallPublish 4%nat]) 4%nat
             (publish 4%nat boot)).
    + right. left. reflexivity.
    + reflexivity.
Defined.

End PublishableFacts.

(* ===================================================================== *)
(** * Further properties of the utilities                                 *)
(* ===================================================================== *)

Section ImmutableFacts.

(** What [makeOwnPropertyImmutable] makes of a property. *)
Lemma definePropertyWith_full (o : Obj) (k : string) (d : PropertyDescriptor) :
  definePropertyWith o k
    {| attr_value := Some (JS.value d); attr_writable := Some (writable d);
       attr_enumerable := Some (enumerable d);
       attr_configurable := Some (configurable d) |}
  = defineProperty o k d.
Proof.
  unfold definePropertyWith, defineProperty.
  destruct (properties o !! k) as [c|].
  - unfold compatible, redefinable, apply_attributes; simpl.
    destruct d as [v w e c']; destruct c as [cv cw ce cc]; simpl.
    destruct cc, c', e, ce, cw, w; simpl; reflexivity.
  - destruct d; reflexivity.
Qed.

(** X1.  [makeOwnPropertyImmutable(obj, prop)] never throws.  A configurable
    own property [prop] keeps its value and its enumerability and becomes
    non-writable and non-configurable; a non-configurable one, and an object
    that has no such property, are left as they are.  No other property
    changes, and neither does the extensibility of the object. *)
Theorem makeOwnPropertyImmutable_locks (obj : Obj) (prop : string) :
  exists obj',
    Utils.makeOwnPropertyImmutable obj prop = Normal obj'
    /\ extensible obj' = extensible obj
    /\ (forall k, k <> prop -> properties obj' !! k = properties obj !! k)
    /\ properties obj' !! prop
       = (fun d => if configurable d
                   then {| JS.value := JS.value d; writable := false;
                           enumerable := enumerable d; configurable := false |}
                   else d) <$> properties obj !! prop.
Proof.
  unfold Utils.makeOwnPropertyImmutable, getOwnPropertyDescriptor.
  destruct (properties obj !! prop) as [d|] eqn:E.
  - destruct (configurable d) eqn:Ec.
    + unfold definePropertyWith. rewrite E.
      unfold compatible. rewrite Ec.
      eexists. split; [reflexivity|]. simpl. repeat split.
      * intros k Hk. apply lookup_insert_ne. congruence.
      * rewrite lookup_insert_eq. unfold apply_attributes. simpl.
        rewrite Ec. reflexivity.
    + exists obj. rewrite E. simpl. rewrite Ec. auto.
  - exists obj. rewrite E. auto.
Qed.

(** X2.  Making a property immutable a second time changes nothing more. *)
Theorem makeOwnPropertyImmutable_twice (obj : Obj) (prop : string) :
  exists obj',
    Utils.makeOwnPropertyImmutable obj prop = Normal obj'
    /\ Utils.makeOwnPropertyImmutable obj' prop = Normal obj'.
Proof.
  unfold Utils.makeOwnPropertyImmutable at 1. unfold getOwnPropertyDescriptor.
  destruct (properties obj !! prop) as [d|] eqn:E.
  - destruct (configurable d) eqn:Ec.
    + unfold definePropertyWith. rewrite E.
      unfold compatible. rewrite Ec.
      eexists. split; [reflexivity|].
      unfold Utils.makeOwnPropertyImmutable, getOwnPropertyDescriptor. simpl.
      rewrite lookup_insert_eq. reflexivity.
    + exists obj. split; [reflexivity|].
      unfold Utils.makeOwnPropertyImmutable, getOwnPropertyDescriptor.
      rewrite E, Ec. reflexivity.
  - exists obj. split; [reflexivity|].
    unfold Utils.makeOwnPropertyImmutable, getOwnPropertyDescriptor.
    rewrite E. reflexivity.
Qed.

End ImmutableFacts.

Section RemoveFacts.
Context {T : Type}.
Variable id : T -> val.

(** An array has a first element that satisfies [pred], or none at all. *)
Lemma first_match_split (pred : T -> bool) (array : list T) :
  Forall (fun x => pred x = false) array
  \/ exists before o after,
       array = before ++ o :: after
       /\ Forall (fun x => pred x = false) before
       /\ pred o = true.
Proof.
  induction array as [|x l IH].
  - left. constructor.
  - destruct (pred x) eqn:Ex.
    + right. exists [], x, l. repeat split; [constructor | exact Ex].
    + destruct IH as [IH|(before & o & after & -> & Hb & Ho)].
      * left. constructor; assumption.
      * right. exists (x :: before), o, after.
        repeat split; [constructor; assumption | exact Ho].
Qed.

Lemma same_id_false (item : T) (l : list T) :
  Forall (fun x => strict_eq (id x) (id item) = false) l <->
  Forall (fun x => id x <> id item) l.
Proof.
  split; intros H; eapply Forall_impl; try exact H;
    intros x Hx; apply strict_eq_false; exact Hx.
Qed.

Lemma existsb_same_id_false (item : T) (l : list T) :
  Forall (fun x => id x <> id item) l ->
  existsb (fun o => strict_eq (id o) (id item)) l = false.
Proof.
  induction 1 as [|x l Hx _ IH]; simpl.
  - reflexivity.
  - rewrite (proj2 (strict_eq_false _ _) Hx), IH. reflexivity.
Qed.

Lemma filter_other_ids (item : T) (l : list T) :
  Forall (fun x => id x <> id item) l ->
  List.filter (fun o => negb (strict_eq (id o) (id item))) l = l.
Proof.
  induction 1 as [|x l Hx _ IH]; simpl.
  - reflexivity.
  - rewrite (proj2 (strict_eq_false _ _) Hx), IH. reflexivity.
Qed.

(** X5.  [removeByID(array, item)] returns true exactly when some element of
    the array has the id of [item]; the array is then shorter by one
    element, and otherwise it is the array that was given. *)
Theorem removeByID_result (array : list T) (item : T) :
  let '(array', found) := Utils.removeByID id array item in
  found = existsb (fun o => strict_eq (id o) (id item)) array
  /\ (if found then S (length array') = length array else array' = array).
Proof.
  destruct (first_match_split (fun o => strict_eq (id o) (id item)) array)
    as [Hnone|(before & o & after & -> & Hb & Ho)].
  - apply same_id_false in Hnone.
    rewrite (removeByID_none id array item Hnone).
    rewrite (existsb_same_id_false item array Hnone). auto.
  - apply same_id_false in Hb. apply strict_eq_true in Ho.
    rewrite (removeByID_first id before after o item Hb Ho). split.
    + rewrite existsb_app. simpl.
      rewrite (proj2 (strict_eq_true _ _) Ho), orb_true_r. reflexivity.
    + rewrite !length_app. simpl. lia.
Qed.

(** X6.  [removeByID] removes nothing but an element with the id of
    [item]: the elements with other ids all stay, in their order, and at
    most one element with that id goes. *)
Theorem removeByID_keeps_other_ids (array : list T) (item : T) :
  let array' := fst (Utils.removeByID id array item) in
  List.filter (fun o => negb (strict_eq (id o) (id item))) array'
  = List.filter (fun o => negb (strict_eq (id o) (id item))) array
  /\ length (List.filter (fun o => strict_eq (id o) (id item)) array')
     = pred (length (List.filter (fun o => strict_eq (id o) (id item)) array)).
Proof.
  cbv zeta.
  destruct (first_match_split (fun o => strict_eq (id o) (id item)) array)
    as [Hnone|(before & o & after & -> & Hb & Ho)].
  - assert (E : List.filter (fun o => strict_eq (id o) (id item)) array = []).
    { clear -Hnone. induction Hnone as [|x l Hx _ IH]; simpl.
      - reflexivity.
      - rewrite Hx. exact IH. }
    apply same_id_false in Hnone.
    rewrite (removeByID_none id array item Hnone). simpl.
    rewrite E. auto.
  - assert (E : List.filter (fun o => strict_eq (id o) (id item)) before = []).
    { clear -Hb. induction Hb as [|x l Hx _ IH]; simpl.
      - reflexivity.
      - rewrite Hx. exact IH. }
    apply same_id_false in Hb. apply strict_eq_true in Ho.
    rewrite (removeByID_first id before after o item Hb Ho). simpl.
    rewrite !List.filter_app. simpl.
    rewrite (proj2 (strict_eq_true _ _) Ho), E. simpl. auto.
Qed.

(** X7.  In an array whose elements have pairwise different ids, a
    successful [removeByID] leaves no element with the id of [item]: a second
    call with the same item finds nothing, returns false and changes
    nothing. *)
Theorem removeByID_again (array : list T) (item : T) :
  NoDup (map id array) ->
  let array' := fst (Utils.removeByID id array item) in
  Forall (fun x => id x <> id item) array'
  /\ Utils.removeByID id array' item = (array', false).
Proof.
  intros Hnd. cbv zeta.
  assert (H : Forall (fun x => id x <> id item)
                (fst (Utils.removeByID id array item))).
  { destruct (first_match_split (fun o => strict_eq (id o) (id item)) array)
      as [Hnone|(before & o & after & -> & Hb & Ho)].
    - apply same_id_false in Hnone.
      rewrite (removeByID_none id array item Hnone). exact Hnone.
    - apply same_id_false in Hb. apply strict_eq_true in Ho.
      rewrite (removeByID_first id before after o item Hb Ho). simpl.
      apply Forall_app. split; [exact Hb|].
      rewrite map_app in Hnd. simpl in Hnd.
      apply NoDup_app in Hnd. destruct Hnd as (_ & _ & Hnd).
      apply NoDup_cons in Hnd. destruct Hnd as [Hnotin _].
      apply Forall_forall. intros x Hx Heq. apply Hnotin.
      rewrite Ho, <- Heq. apply list_elem_of_fmap. exists x. auto. }
  split; [exact H|]. apply removeByID_none, H.
Qed.

End RemoveFacts.

Lemma removeByID_again_witness :
  let id := fun o : Z * string => VNum (fst o) in
  let array := [(1, "a"); (2, "b"); (3, "c")]%string in
  let array' := fst (Utils.removeByID id array (2, "z"%string)) in
  array' = [(1, "a"); (3, "c")]%string
  /\ Forall (fun x => id x <> id (2, "z"%string)) array'
  /\ Utils.removeByID id array' (2, "z"%string) = (array', false).
Proof.
  cbv zeta. split.
  - reflexivity.
  - apply (removeByID_again (fun o : Z * string => VNum (fst o))
             [(1, "a"); (2, "b"); (3, "c")]%string (2, "z"%string)).
    apply (bool_decide_unpack _). vm_compute. exact I.
Defined.

(* ===================================================================== *)
(** * Further properties of the id stamper                                *)
(* ===================================================================== *)

Section StampFacts.
Import IDStamper.
Local Arguments next : simpl never.
Local Arguments round_to_double : simpl never.

(** X8.  [stamp] returns exactly when the id can be defined: the object has
    no [id] and is extensible, or its [id] is configurable, or its [id] is
    enumerable and either writable or already the value to be written.  In
    every other case it throws a TypeError. *)
Theorem stamp_returns_iff (this : IDStamper) (obj : Obj) (id : val) :
  ((exists r, snd (stamp this obj id) = Normal r) <->
   match properties obj !! "id"%string with
   | None => extensible obj = true
   | Some c =>
       configurable c = true
       \/ (enumerable c = true
           /\ (writable c = true \/ JS.value c = id_to_write this id))
   end)
  /\ (forall e, snd (stamp this obj id) = Throw e -> is_TypeError e = true).
Proof.
  rewrite stamp_unfold. cbv zeta. unfold defineProperty.
  destruct (properties obj !! "id"%string) as [c|].
  - unfold redefinable. simpl.
    destruct (configurable c), (enumerable c), (writable c); simpl;
      try (split; [split; [intros _; tauto | intros _; eauto]
                  | intros e; discriminate]);
      try (split; [split; [intros [r Hr]; discriminate
                          | intros [H|[H _]]; discriminate]
                  | intros e H; injection H as <-; reflexivity]).
    destruct (SameValue (id_to_write this id) (JS.value c)) eqn:E; simpl.
    + apply bool_decide_eq_true in E.
      split; [split; [intros _; auto | intros _; eauto]
             | intros e; discriminate].
    + apply bool_decide_eq_false in E.
      split; [split; [intros [r Hr]; discriminate|]
             | intros e H; injection H as <-; reflexivity].
      intros [H|[_ [H|H]]]; try discriminate. congruence.
  - destruct (extensible obj); simpl.
    + split; [split; [auto | eauto] | intros e; discriminate].
    + split; [split; [intros [r Hr]; discriminate | discriminate]
             | intros e H; injection H as <-; reflexivity].
Qed.

(** X9.  [stamp] touches nothing but the [id]: every other property and the
    extensibility of the object stay as they were; when it throws, the whole
    object does; and with an explicit id the stamper stays as it was too. *)
Theorem stamp_touches_only_id (this : IDStamper) (obj : Obj) (id : val) :
  let '(this', obj', c) := stamp this obj id in
  extensible obj' = extensible obj
  /\ (forall k, k <> "id"%string -> properties obj' !! k = properties obj !! k)
  /\ match c with
     | Throw _ => obj' = obj
     | Normal r => stamped_with obj' r
     end
  /\ (id <> VUndefined -> this' = this).
Proof.
  destruct (stamp this obj id) as [[this' obj'] c] eqn:E.
  assert (Hthis : id <> VUndefined -> this' = this).
  { intros Hid. apply (stamp_explicit this this' obj obj' id c); [|exact E].
    apply strict_eq_false. exact Hid. }
  rewrite stamp_unfold in E. cbv zeta in E.
  destruct (defineProperty obj "id" _) as [o|e] eqn:Ed.
  - injection E as _ <- <-.
    pose proof (get_own_defineProperty _ _ _ _ Ed) as Hg.
    apply defineProperty_Normal in Ed. subst o. simpl.
    repeat split; try assumption.
    + intros k Hk. apply lookup_insert_ne. congruence.
    + unfold stamped_with. simpl. rewrite lookup_insert_eq.
      unfold get_own. simpl. rewrite lookup_insert_eq. reflexivity.
  - injection E as _ <- <-. auto.
Qed.

Lemma stamp_all_counter (calls : list (Obj * val)) :
  forall n : Z,
    0 <= n ->
    n + Z.of_nat (requests calls) <= 2 ^ 53 ->
    fst (stamp_all {| gen := Suspended n |} calls)
    = {| gen := Suspended (n + Z.of_nat (requests calls)) |}.
Proof.
  induction calls as [|[obj0 id0] rest IH]; intros n Hn Hb.
  - simpl. f_equal. f_equal. unfold requests. simpl. lia.
  - simpl.
    destruct (stamp {| gen := Suspended n |} obj0 id0)
      as [[this' obj'] c] eqn:Es.
    destruct (stamp_all this' rest) as [this'' cs] eqn:Er. simpl.
    destruct (strict_eq id0 VUndefined) eqn:Eid.
    + apply strict_eq_true in Eid. subst id0.
      rewrite requests_cons_request in *.
      assert (Hn' : 0 <= n < 2 ^ 53) by lia.
      destruct (stamp_request_below n this' obj0 obj' c Hn' Es) as [-> _].
      pose proof (IH (n + 1)) as H. rewrite Er in H. simpl in H.
      rewrite H by lia. f_equal. f_equal. lia.
    + rewrite (requests_cons_explicit _ _ _ Eid) in *.
      pose proof (stamp_explicit _ _ _ _ _ _ Eid Es) as ->.
      pose proof (IH n) as H. rewrite Er in H. simpl in H.
      apply H; assumption.
Qed.

(** X10.  The counter of a stamper counts the calls that asked for a
    generated id, and nothing else: after any series of calls with at most
    2^53 such requests it stands at their number, whether those calls
    returned or threw, and however many explicit ids were stamped. *)
Theorem stamper_counts_requests (calls : list (Obj * val)) :
  Z.of_nat (requests calls) <= 2 ^ 53 ->
  fst (stamp_all IDStamper.new calls)
  = {| gen := Suspended (Z.of_nat (requests calls)) |}.
Proof.
  intros Hb. apply (stamp_all_counter calls 0 (Z.le_refl 0) Hb).
Qed.

Lemma stamper_counts_requests_witness :
  let frozen := {| properties := ∅; extensible := false |} in
  let calls := [ (frozen, VUndefined); (empty_object, VNum 40);
                 (empty_object, VUndefined) ] in
  snd (stamp_all IDStamper.new calls)
  = [ Throw (TypeError "Cannot define property id, object is not extensible");
      Normal (VNum 40); Normal (VNum 2) ]
  /\ fst (stamp_all IDStamper.new calls)
     = {| gen := Suspended (Z.of_nat (requests calls)) |}.
Proof.
  cbv zeta. split.
  - reflexivity.
  - apply (stamper_counts_requests
             [ ({| properties := ∅; extensible := false |}, VUndefined);
               (empty_object, VNum 40); (empty_object, VUndefined) ]).
    vm_compute. discriminate.
Defined.

(** X11.  An explicit id is stamped as given and is not remembered: on a
    stamper whose counter stands at [n], stamping the explicit id [n + 1] on
    a new object returns [n + 1], and the next generated id, on another new
    object, is [n + 1] again. *)
Theorem explicit_id_is_not_reserved (n : Z) (o1 o2 : Obj) :
  0 <= n < 2 ^ 53 ->
  extensible o1 = true -> properties o1 !! "id"%string = None ->
  extensible o2 = true -> properties o2 !! "id"%string = None ->
  exists o1' o2',
    stamp {| gen := Suspended n |} o1 (VNum (n + 1))
    = ({| gen := Suspended n |}, o1', Normal (VNum (n + 1)))
    /\ stamp {| gen := Suspended n |} o2 VUndefined
       = ({| gen := Suspended (n + 1) |}, o2', Normal (VNum (n + 1))).
Proof.
  intros Hn He1 Hp1 He2 Hp2.
  destruct (stamp {| gen := Suspended n |} o1 (VNum (n + 1)))
    as [[t1 o1'] c1] eqn:E1.
  destruct (stamp {| gen := Suspended n |} o2 VUndefined)
    as [[t2 o2'] c2] eqn:E2.
  exists o1', o2'.
  pose proof (stamp_fresh_object {| gen := Suspended n |} o1 (VNum (n + 1))
                He1 Hp1) as H1.
  pose proof (stamp_fresh_object {| gen := Suspended n |} o2 VUndefined
                He2 Hp2) as H2.
  rewrite E1 in H1. rewrite E2 in H2. simpl in H1, H2. subst c1 c2.
  assert (t1 = {| gen := Suspended n |}) as ->
    by (eapply stamp_explicit; [|exact E1]; reflexivity).
  destruct (stamp_request_below n t2 o2 o2' _ Hn E2) as [-> _].
  split; [reflexivity|]. f_equal.
  unfold id_to_write. simpl. rewrite (next_below n Hn). reflexivity.
Qed.

Lemma explicit_id_is_not_reserved_witness :
  exists o1' o2',
    stamp {| gen := Suspended 4 |} empty_object (VNum (4 + 1))
    = ({| gen := Suspended 4 |}, o1', Normal (VNum (4 + 1)))
    /\ stamp {| gen := Suspended 4 |} empty_object VUndefined
       = ({| gen := Suspended (4 + 1) |}, o2', Normal (VNum (4 + 1))).
Proof.
  apply (explicit_id_is_not_reserved 4 empty_object empty_object).
  - split; [discriminate | reflexivity].
  - reflexivity.
  - reflexivity.
  - reflexivity.
  - reflexivity.
Defined.

End StampFacts.

(* ===================================================================== *)
(** * Further properties of [initialize] and of the reporters             *)
(* ===================================================================== *)

Section MergeFacts.
Implicit Types (o rv defaults data this that : object) (k p : string).

Lemma object_eq o1 o2 :
  own o1 = own o2 -> inherits o1 = inherits o2 -> o1 = o2.
Proof. destruct o1, o2. simpl. intros -> ->. reflexivity. Qed.

Lemma keys_nil (m : gmap string val) : keys m = [] <-> m = ∅.
Proof.
  unfold keys. split.
  - intros H. apply fmap_nil_inv in H. apply map_to_list_empty_iff. exact H.
  - intros ->. rewrite map_to_list_empty. reflexivity.
Qed.

Lemma initialize_inherits defaults data rv :
  builtin_hasOwnProperty data ->
  own defaults !! "__proto__"%string = None ->
  Utils.initialize defaults data = Normal rv ->
  inherits rv = true.
Proof.
  intros Hb Hp. rewrite (initialize_builtin defaults data Hb).
  intros H. injection H as <-.
  rewrite foldl_set_property_inherits; [reflexivity|].
  rewrite elem_of_keys, Hp. intros [x Hx]. discriminate.
Qed.

Lemma initialize_Normal defaults data :
  builtin_hasOwnProperty data ->
  exists rv, Utils.initialize defaults data = Normal rv.
Proof. intros Hb. rewrite (initialize_builtin defaults data Hb). eauto. Qed.

Lemma spread_builtin d1 d2 :
  builtin_hasOwnProperty d1 -> builtin_hasOwnProperty d2 ->
  builtin_hasOwnProperty (spread d1 d2).
Proof.
  intros [H1 _] [H2 _]. split; [|reflexivity].
  unfold spread. simpl. rewrite lookup_union, H1, H2. reflexivity.
Qed.

(** X3.  For data with the built-in [hasOwnProperty] and defaults without a
    [__proto__] key, overriding in two steps is overriding once with both
    sets of values, the later ones first:
    [initialize(initialize(defaults, d1), d2)] is
    [initialize(defaults, {...d1, ...d2})].  When the defaults have no
    [hasOwnProperty] key either, the result of [initialize] is unchanged
    when it is given back as the data. *)
Theorem initialize_twice defaults (d1 d2 : object) :
  builtin_hasOwnProperty d1 ->
  builtin_hasOwnProperty d2 ->
  own defaults !! "__proto__"%string = None ->
  exists rv1,
    Utils.initialize defaults d1 = Normal rv1
    /\ Utils.initialize rv1 d2 = Utils.initialize defaults (spread d1 d2)
    /\ (own defaults !! "hasOwnProperty"%string = None ->
        Utils.initialize defaults rv1 = Normal rv1).
Proof.
  intros H1 H2 Hp.
  destruct (initialize_Normal defaults d1 H1) as [rv1 E1].
  exists rv1. split; [exact E1|].
  pose proof (fun k => lookup_initialize defaults d1 rv1 k H1 E1) as L1.
  pose proof (initialize_inherits defaults d1 rv1 H1 Hp E1) as I1.
  assert (P1 : own rv1 !! "__proto__"%string = None)
    by (rewrite L1, bool_decide_eq_true_2; reflexivity).
  split.
  - destruct (initialize_Normal rv1 d2 H2) as [rv2 E2].
    destruct (initialize_Normal defaults (spread d1 d2)
                (spread_builtin d1 d2 H1 H2)) as [rv3 E3].
    rewrite E2, E3. f_equal. apply object_eq.
    + apply map_eq. intros k.
      rewrite (lookup_initialize rv1 d2 rv2 k H2 E2).
      rewrite (lookup_initialize defaults (spread d1 d2) rv3 k
                 (spread_builtin d1 d2 H1 H2) E3).
      rewrite L1. unfold spread. simpl. rewrite lookup_union.
      destruct (bool_decide (k = "__proto__"%string)); [reflexivity|].
      destruct (own defaults !! k), (own d2 !! k), (own d1 !! k);
        reflexivity.
    + rewrite (initialize_inherits rv1 d2 rv2 H2 P1 E2).
      rewrite (initialize_inherits defaults (spread d1 d2) rv3
                 (spread_builtin d1 d2 H1 H2) Hp E3).
      reflexivity.
  - intros Hh.
    assert (Hb : builtin_hasOwnProperty rv1).
    { split; [|exact I1]. rewrite L1, Hh.
      destruct (bool_decide _); reflexivity. }
    destruct (initialize_Normal defaults rv1 Hb) as [rv2 E2].
    rewrite E2. f_equal. apply object_eq.
    + apply map_eq. intros k.
      rewrite (lookup_initialize defaults rv1 rv2 k Hb E2), !L1.
      destruct (bool_decide (k = "__proto__"%string)); [reflexivity|].
      destruct (own defaults !! k), (own d1 !! k); reflexivity.
    + rewrite (initialize_inherits defaults rv1 rv2 Hb Hp E2), I1.
      reflexivity.
Qed.

Lemma initialize_twice_witness :
  let defaults := literal {[ "x"%string := VNum 1; "y"%string := VNum 2 ]} in
  let d1 := literal {[ "x"%string := VNum 10 ]} in
  let d2 := literal {[ "y"%string := VNum 20; "z"%string := VNum 30 ]} in
  exists rv1,
    Utils.initialize defaults d1 = Normal rv1
    /\ Utils.initialize rv1 d2 = Utils.initialize defaults (spread d1 d2)
    /\ (own defaults !! "hasOwnProperty"%string = None ->
        Utils.initialize defaults rv1 = Normal rv1).
Proof.
  cbv zeta.
  apply (initialize_twice
           (literal {[ "x"%string := VNum 1; "y"%string := VNum 2 ]})
           (literal {[ "x"%string := VNum 10 ]})
           (literal {[ "y"%string := VNum 20; "z"%string := VNum 30 ]})).
  - split; reflexivity.
  - split; reflexivity.
  - reflexivity.
Defined.

(** X4.  [initialize] asks the data only once per key of the defaults: with
    no key it returns the empty object whatever the data is, and with a key
    it throws a TypeError exactly when the [hasOwnProperty] of the data is
    not the built-in.  Without data it returns a copy of defaults that have
    no [__proto__] key; and data that owns every key of the defaults gives
    all the values of the result. *)
Theorem initialize_edges defaults data :
  (own defaults = ∅ -> Utils.initialize defaults data = Normal (literal ∅))
  /\ (own defaults <> ∅ ->
      ((exists e, Utils.initialize defaults data = Throw e)
       <-> ~ builtin_hasOwnProperty data)
      /\ (forall e, Utils.initialize defaults data = Throw e ->
                    is_TypeError e = true))
  /\ (own defaults !! "__proto__"%string = None ->
      Utils.initialize defaults (literal ∅) = Normal (literal (own defaults)))
  /\ (builtin_hasOwnProperty data ->
      dom (own defaults) ⊆ dom (own data) ->
      forall rv k v,
        Utils.initialize defaults data = Normal rv ->
        own rv !! k = Some v -> own data !! k = Some v).
Proof.
  split; [|split; [|split]].
  - intros H. unfold Utils.initialize. rewrite H. reflexivity.
  - intros Hne.
    destruct (builtin_hasOwnProperty_dec data) as [Hb|Hb].
    + destruct (initialize_Normal defaults data Hb) as [rv E]. rewrite E.
      split; [split|].
      * intros [e He]. discriminate.
      * intros H. contradiction.
      * intros e He. discriminate.
    + assert (E : Utils.initialize defaults data
                  = Throw (TypeError "hasOwnProperty is not a function")).
      { unfold Utils.initialize.
        destruct (keys (own defaults)) as [|k l] eqn:Ek.
        - apply keys_nil in Ek. contradiction.
        - cbn [foldl]. rewrite (hasOwnProperty_shadowed data k Hb).
          apply foldl_Throw. reflexivity. }
      rewrite E. split; [split; eauto|].
      intros e He. injection He as <-. reflexivity.
  - intros Hp.
    assert (Hb : builtin_hasOwnProperty (literal ∅)) by (split; reflexivity).
    destruct (initialize_Normal defaults (literal ∅) Hb) as [rv E].
    rewrite E. f_equal. apply object_eq.
    + apply map_eq. intros k.
      rewrite (lookup_initialize defaults (literal ∅) rv k Hb E). simpl.
      destruct (decide (k = "__proto__"%string)) as [->|Hk].
      * rewrite bool_decide_eq_true_2 by reflexivity. symmetry. exact Hp.
      * rewrite bool_decide_eq_false_2 by exact Hk.
        destruct (own defaults !! k); simpl; rewrite ?lookup_empty;
          reflexivity.
    + apply (initialize_inherits defaults (literal ∅) rv Hb Hp E).
  - intros Hb Hsub rv k v E.
    rewrite (lookup_initialize defaults data rv k Hb E).
    destruct (bool_decide (k = "__proto__"%string)); [discriminate|].
    destruct (own defaults !! k) as [d|] eqn:Ed; [|discriminate].
    assert (Hk : k ∈ dom (own data)).
    { apply Hsub, elem_of_dom. eauto. }
    apply elem_of_dom in Hk. destruct Hk as [x Hx]. rewrite Hx. simpl.
    congruence.
Qed.

Section Reporters.
Variable F : list string.

Lemma lookup_foldl_null (m : gmap string val) k :
  foldl (fun d p => <[p := VNull]> d) m F !! k
  = if bool_decide (k ∈ F) then Some VNull else m !! k.
Proof.
  revert m. induction F as [|p l IH]; intros m; cbn [foldl].
  - reflexivity.
  - rewrite IH. destruct (decide (k = p)) as [->|Hne].
    + rewrite lookup_insert_eq.
      rewrite (bool_decide_eq_true_2 (p ∈ p :: l)) by apply list_elem_of_here.
      destruct (bool_decide (p ∈ l)); reflexivity.
    + rewrite lookup_insert_ne by congruence.
      apply (f_equal (fun b : bool => if b then Some VNull else m !! k)).
      apply bool_decide_ext. rewrite elem_of_cons. tauto.
Qed.

Lemma lookup_defaults k :
  own (Reporter.defaults F) !! k
  = if bool_decide (k ∈ F) then Some VNull else None.
Proof.
  unfold Reporter.defaults. simpl. rewrite lookup_foldl_null, lookup_empty.
  reflexivity.
Qed.

Lemma new_has_declared_fields_aux data :
  builtin_hasOwnProperty data ->
  "hasOwnProperty"%string ∉ F ->
  "__proto__"%string ∉ F ->
  exists this,
    Reporter.new F data = Normal this
    /\ inherits this = true
    /\ forall k,
         own this !! k
         = if bool_decide (k ∈ F) then Some (default VNull (own data !! k))
           else None.
Proof.
  intros Hb Hh Hp.
  destruct (initialize_Normal (Reporter.defaults F) data Hb) as [values E].
  pose proof (fun k => lookup_initialize _ _ values k Hb E) as L.
  assert (Hdp : own (Reporter.defaults F) !! "__proto__"%string = None)
    by (rewrite lookup_defaults, bool_decide_eq_false_2; auto).
  assert (Hv : builtin_hasOwnProperty values).
  { split.
    - rewrite L, lookup_defaults.
      rewrite (bool_decide_eq_false_2 ("hasOwnProperty"%string ∈ F))
        by exact Hh.
      destruct (bool_decide _); reflexivity.
    - apply (initialize_inherits _ _ _ Hb Hdp E). }
  unfold Reporter.new. rewrite E, (assign_builtin F _ values Hv).
  eexists. split; [reflexivity|].
  assert (Hk : forall k,
             own (foldl (fun this p =>
                           if owns values p
                           then set_property this p (get (own values) p)
                           else this) (literal ∅) F) !! k
             = if bool_decide (k ∈ F)
               then Some (default VNull (own data !! k)) else None).
  { intros k. rewrite lookup_assign_loop.
    - rewrite L, lookup_defaults. simpl. rewrite lookup_empty.
      destruct (decide (k ∈ F)) as [Hin|Hout].
      + rewrite !(bool_decide_eq_true_2 (k ∈ F)) by exact Hin.
        rewrite (bool_decide_eq_false_2 (k = "__proto__"%string))
          by (intros ->; contradiction).
        simpl. destruct (own data !! k); reflexivity.
      + rewrite !(bool_decide_eq_false_2 (k ∈ F)) by exact Hout.
        destruct (bool_decide (k = "__proto__"%string)); reflexivity.
    - destruct (decide (k = "__proto__"%string)) as [->|Hne];
        [right; exact Hp | left; exact Hne]. }
  split; [|exact Hk].
  rewrite inherits_assign_loop by exact Hp. reflexivity.
Qed.


(** X12.  For data with the built-in [hasOwnProperty] and declared fields
    that include neither [hasOwnProperty] nor [__proto__], a new reporter
    has the declared fields and no others: each holds the value of the data
    when the data owns it and [null] otherwise, and a key of the data that
    is not declared is not on the instance.  A factory that declares a field
    named [hasOwnProperty] makes a class whose constructor always throws a
    TypeError. *)
Theorem new_has_declared_fields data :
  ("hasOwnProperty"%string ∈ F ->
   exists e, Reporter.new F data = Throw e /\ is_TypeError e = true)
  /\ (builtin_hasOwnProperty data ->
      "hasOwnProperty"%string ∉ F ->
      "__proto__"%string ∉ F ->
      exists this,
        Reporter.new F data = Normal this
        /\ inherits this = true
        /\ dom (own this) = list_to_set F
        /\ forall k,
             own this !! k
             = if bool_decide (k ∈ F) then Some (default VNull (own data !! k))
               else None).
Proof.
  split.
  - intros Hin. unfold Reporter.new.
    assert (HF : F <> []) by (intros E; rewrite E in Hin; inversion Hin).
    destruct (builtin_hasOwnProperty_dec data) as [Hb|Hb].
    + destruct (initialize_Normal (Reporter.defaults F) data Hb)
        as [values E].
      rewrite E.
      assert (Hv : ~ builtin_hasOwnProperty values).
      { intros [H _].
        rewrite (lookup_initialize _ _ _ "hasOwnProperty"%string Hb E) in H.
        rewrite lookup_defaults in H.
        rewrite (bool_decide_eq_true_2 ("hasOwnProperty"%string ∈ F)) in H
          by exact Hin.
        rewrite bool_decide_eq_false_2 in H by discriminate.
        discriminate H. }
      rewrite (assign_shadowed F (literal ∅) values Hv HF).
      eexists. split; reflexivity.
    + assert (Hne : own (Reporter.defaults F) <> ∅).
      { intros E.
        pose proof (lookup_defaults "hasOwnProperty"%string) as H.
        rewrite E, lookup_empty, bool_decide_eq_true_2 in H by exact Hin.
        discriminate H. }
      destruct (initialize_edges (Reporter.defaults F) data)
        as (_ & Hthrow & _).
      destruct (Hthrow Hne) as [Hiff Hty].
      destruct (proj2 Hiff Hb) as [e He]. rewrite He.
      exists e. split; [reflexivity | apply Hty, He].
  - intros Hb Hh Hp.
    destruct (new_has_declared_fields_aux data Hb Hh Hp) as (this & E & I & L).
    exists this. split; [exact E|]. split; [exact I|]. split; [|exact L].
    apply set_eq. intros k. rewrite elem_of_dom, L, elem_of_list_to_set.
    destruct (decide (k ∈ F)) as [Hin|Hout].
    + rewrite bool_decide_eq_true_2 by exact Hin. split; eauto.
    + rewrite bool_decide_eq_false_2 by exact Hout.
      split; [intros [v H]; discriminate | contradiction].
Qed.

Lemma assign_Normal this data :
  builtin_hasOwnProperty data ->
  "__proto__"%string ∉ F ->
  exists this',
    Reporter.assign F this data = (this', Normal tt)
    /\ inherits this' = inherits this
    /\ forall k,
         own this' !! k
         = match own data !! k with
           | Some v => if bool_decide (k ∈ F) then Some v else own this !! k
           | None => own this !! k
           end.
Proof.
  intros Hb Hp. rewrite (assign_builtin F this data Hb).
  eexists. split; [reflexivity|]. split.
  - apply inherits_assign_loop, Hp.
  - intros k. apply lookup_assign_loop.
    destruct (decide (k = "__proto__"%string)) as [->|Hne];
      [right; exact Hp | left; exact Hne].
Qed.

(** X13.  For data with the built-in [hasOwnProperty] and declared fields
    without [__proto__], two [assign] calls in a row are one [assign] with
    both sets of values, those of the later call first; so repeating an
    [assign] changes nothing. *)
Theorem assign_twice this (d1 d2 : object) :
  builtin_hasOwnProperty d1 ->
  builtin_hasOwnProperty d2 ->
  "__proto__"%string ∉ F ->
  exists this1,
    Reporter.assign F this d1 = (this1, Normal tt)
    /\ Reporter.assign F this1 d2 = Reporter.assign F this (spread d1 d2)
    /\ Reporter.assign F this1 d1 = (this1, Normal tt).
Proof.
  intros H1 H2 Hp.
  destruct (assign_Normal this d1 H1 Hp) as (this1 & E1 & I1 & L1).
  exists this1. split; [exact E1|]. split.
  - destruct (assign_Normal this1 d2 H2 Hp) as (this2 & E2 & I2 & L2).
    destruct (assign_Normal this (spread d1 d2)
                (spread_builtin d1 d2 H1 H2) Hp) as (this3 & E3 & I3 & L3).
    rewrite E2, E3. f_equal. apply object_eq.
    + apply map_eq. intros k. rewrite L2, L3, L1.
      unfold spread. simpl. rewrite lookup_union.
      destruct (bool_decide (k ∈ F)), (own d2 !! k), (own d1 !! k);
        reflexivity.
    + congruence.
  - destruct (assign_Normal this1 d1 H1 Hp) as (this2 & E2 & I2 & L2).
    rewrite E2. f_equal. apply object_eq.
    + apply map_eq. intros k. rewrite L2, L1.
      destruct (bool_decide (k ∈ F)), (own d1 !! k); reflexivity.
    + exact I2.
Qed.

(** X14.  Data with the built-in [hasOwnProperty] that owns none of the
    declared fields is not an error and changes nothing: [assign] returns
    the instance as it was. *)
Theorem assign_foreign_data this data :
  builtin_hasOwnProperty data ->
  (forall k, k ∈ F -> own data !! k = None) ->
  Reporter.assign F this data = (this, Normal tt).
Proof.
  intros Hb H. rewrite (assign_builtin F this data Hb). f_equal.
  induction F as [|p l IH]; cbn [foldl].
  - reflexivity.
  - rewrite (proj2 (owns_false data p))
      by (apply H; apply list_elem_of_here).
    apply IH. intros k Hk. apply H. apply list_elem_of_further. exact Hk.
Qed.

(** ** Snapshots *)

Section Snapshots.
Import IDStamper.
Local Arguments next : simpl never.
Variable inherited : string -> bool.

Lemma own_values_plain_object (m : gmap string val) :
  own_values (plain_object m) = m.
Proof.
  unfold own_values, plain_object. simpl.
  apply map_eq. intros k. rewrite !lookup_fmap.
  destruct (m !! k); reflexivity.
Qed.

Lemma id_to_write_explicit (stamper : IDStamper) (v : val) :
  v <> VUndefined -> id_to_write stamper v = v.
Proof.
  intros H. unfold id_to_write.
  rewrite (proj2 (strict_eq_false v VUndefined) H). reflexivity.
Qed.

(** Stamping a snapshot in the making always succeeds. *)
Lemma stamp_plain_object (stamper : IDStamper) (m : gmap string val)
    (id : val) :
  stamp stamper (plain_object m) id
  = (if strict_eq id VUndefined
     then {| gen := fst (next (gen stamper)) |} else stamper,
     {| properties := <["id"%string := stamped_id (id_to_write stamper id)]>
                        (plain <$> m);
        extensible := true |},
     Normal (id_to_write stamper id)).
Proof.
  rewrite stamp_unfold. cbv zeta. unfold defineProperty, plain_object. simpl.
  rewrite lookup_fmap.
  destruct (m !! "id"%string); simpl;
    unfold get_own; simpl; rewrite lookup_insert_eq; reflexivity.
Qed.

Lemma lookup_snapshot_fields this k :
  snapshot_fields F this !! k
  = if bool_decide (k ∈ F) then Some (get (own this) k) else None.
Proof.
  unfold snapshot_fields.
  generalize (lookup_empty (A := val) k).
  generalize (∅ : gmap string val). intros m Hm.
  rewrite <- Hm. clear Hm. revert m.
  induction F as [|p l IH]; intros m; cbn [foldl].
  - reflexivity.
  - rewrite IH. destruct (decide (k = p)) as [->|Hne].
    + rewrite lookup_insert_eq.
      rewrite (bool_decide_eq_true_2 (p ∈ p :: l)) by apply list_elem_of_here.
      destruct (bool_decide (p ∈ l)); reflexivity.
    + rewrite lookup_insert_ne by congruence.
      apply (f_equal (fun b : bool => if b then Some (get (own this) k)
                                      else m !! k)).
      apply bool_decide_ext. rewrite elem_of_cons. tauto.
Qed.

Lemma report_fields_loop this (l : list string) :
  forall o,
    Forall (fun p => is_Some (own this !! p)) l ->
    "__proto__"%string ∉ l ->
    foldl (fun acc p =>
             match acc with
             | None => None
             | Some data =>
                 match Reporter.read inherited this p with
                 | None => None
                 | Some v => Some (set_property data p v)
                 end
             end) (Some o) l
    = Some {| own := foldl (fun d p => <[p := get (own this) p]> d) (own o) l;
              inherits := inherits o |}.
Proof.
  induction l as [|p l IH]; intros o Hl Hp; cbn [foldl].
  - destruct o; reflexivity.
  - apply Forall_cons in Hl. destruct Hl as [[v Hv] Hl].
    unfold Reporter.read at 2. rewrite Hv.
    rewrite set_property_plain
      by (intros ->; apply Hp; apply list_elem_of_here).
    rewrite IH;
      [|exact Hl | intros H; apply Hp; apply list_elem_of_further; exact H].
    simpl. replace (get (own this) p) with v
      by (unfold get; rewrite Hv; reflexivity).
    reflexivity.
Qed.

Lemma report_unfold (stamper : IDStamper) this :
  Forall (fun p => is_Some (own this !! p)) F ->
  "__proto__"%string ∉ F ->
  Reporter.report F inherited stamper this
  = Some
      match hasOwnProperty this "id" with
      | Throw e => (stamper, Throw e)
      | Normal false => (stamper, Normal (plain_object (snapshot_fields F this)))
      | Normal true =>
          (if strict_eq (get (own this) "id") VUndefined
           then {| gen := fst (next (gen stamper)) |} else stamper,
           Normal {| properties :=
                       <["id"%string :=
                           stamped_id
                             (id_to_write stamper (get (own this) "id"))]>
                         (plain <$> snapshot_fields F this);
                     extensible := true |})
      end.
Proof.
  intros Hl Hp. unfold Reporter.report.
  rewrite (report_fields_loop this F (literal ∅) Hl Hp). simpl.
  fold (snapshot_fields F this).
  destruct (hasOwnProperty this "id") as [[|]|e]; try reflexivity.
  rewrite stamp_plain_object. reflexivity.
Qed.

(** X15.  For an instance that owns every declared field, none of them
    named [__proto__]: when its [hasOwnProperty] is the built-in, [report()]
    returns a snapshot, an extensible object whose keys are the declared
    fields, and [id] when the instance has an id of its own, a declared
    field other than [id] being an ordinary property with the value of the
    instance; and when the instance owns a property named [hasOwnProperty],
    [report()] throws a TypeError. *)
Theorem report_returns_snapshot (stamper : IDStamper) this :
  Forall (fun p => is_Some (own this !! p)) F ->
  "__proto__"%string ∉ F ->
  (builtin_hasOwnProperty this ->
   exists stamper' snapshot,
     Reporter.report F inherited stamper this
     = Some (stamper', Normal snapshot)
     /\ extensible snapshot = true
     /\ (forall k, is_Some (properties snapshot !! k)
                   <-> k ∈ F \/ (k = "id"%string /\ is_Some (own this !! k)))
     /\ (forall k, k ∈ F -> k <> "id"%string ->
                   properties snapshot !! k
                   = Some (plain (get (own this) k))))
  /\ (~ builtin_hasOwnProperty this ->
      Reporter.report F inherited stamper this
      = Some (stamper, Throw (TypeError "hasOwnProperty is not a function"))).
Proof.
  intros Hl Hp. rewrite (report_unfold stamper this Hl Hp). split.
  - intros Hb. rewrite (hasOwnProperty_builtin this "id" Hb).
    destruct (owns this "id") eqn:Eid.
    + apply owns_true in Eid.
      eexists _, _. split; [reflexivity|]. simpl. repeat split.
      * intros [d Hd]. destruct (decide (k = "id"%string)) as [->|Hne].
        -- right. split; [reflexivity|]. destruct Eid as [v Hv]. eauto.
        -- left.
           rewrite lookup_insert_ne, lookup_fmap, lookup_snapshot_fields in Hd
             by congruence.
           destruct (decide (k ∈ F)) as [Hin|Hout]; [exact Hin|].
           rewrite bool_decide_eq_false_2 in Hd by exact Hout. discriminate.
      * intros [Hin|[-> _]].
        -- destruct (decide (k = "id"%string)) as [->|Hne].
           ++ rewrite lookup_insert_eq. eauto.
           ++ rewrite lookup_insert_ne, lookup_fmap, lookup_snapshot_fields
                by congruence.
              rewrite bool_decide_eq_true_2 by exact Hin. simpl. eauto.
        -- rewrite lookup_insert_eq. eauto.
      * intros k Hin Hne.
        rewrite lookup_insert_ne, lookup_fmap, lookup_snapshot_fields
          by congruence.
        rewrite bool_decide_eq_true_2 by exact Hin. reflexivity.
    + apply owns_false in Eid.
      eexists _, _. split; [reflexivity|]. simpl. repeat split.
      * intros [d Hd]. left.
        rewrite lookup_fmap, lookup_snapshot_fields in Hd.
        destruct (decide (k ∈ F)) as [Hin|Hout]; [exact Hin|].
        rewrite bool_decide_eq_false_2 in Hd by exact Hout. discriminate.
      * intros [Hin|[-> [v Hv]]]; [|congruence].
        rewrite lookup_fmap, lookup_snapshot_fields.
        rewrite bool_decide_eq_true_2 by exact Hin. simpl. eauto.
      * intros k Hin Hne. rewrite lookup_fmap, lookup_snapshot_fields.
        rewrite bool_decide_eq_true_2 by exact Hin. reflexivity.
  - intros Hb. rewrite (hasOwnProperty_shadowed this "id" Hb). reflexivity.
Qed.

(** The values of a snapshot, for an instance whose id is not [undefined]. *)
Lemma report_values (stamper : IDStamper) this :
  Forall (fun p => is_Some (own this !! p)) F ->
  "__proto__"%string ∉ F ->
  builtin_hasOwnProperty this ->
  own this !! "id"%string <> Some VUndefined ->
  exists snapshot,
    Reporter.report F inherited stamper this = Some (stamper, Normal snapshot)
    /\ forall k,
         own_values snapshot !! k
         = if bool_decide (k ∈ F) then Some (get (own this) k)
           else if bool_decide (k = "id"%string) then own this !! k else None.
Proof.
  intros Hl Hp Hb Hid. rewrite (report_unfold stamper this Hl Hp).
  rewrite (hasOwnProperty_builtin this "id" Hb).
  destruct (owns this "id") eqn:Eid.
  - apply owns_true in Eid. destruct Eid as [v Hv].
    assert (Hv' : v <> VUndefined) by congruence.
    assert (Eg : get (own this) "id" = v)
      by (unfold get; rewrite Hv; reflexivity).
    rewrite Eg, (proj2 (strict_eq_false v VUndefined) Hv').
    rewrite (id_to_write_explicit stamper v Hv').
    eexists. split; [reflexivity|]. intros k.
    unfold own_values. simpl. rewrite lookup_fmap.
    destruct (decide (k = "id"%string)) as [->|Hne].
    + rewrite lookup_insert_eq. simpl. rewrite Eg, Hv.
      destruct (bool_decide ("id"%string ∈ F)); reflexivity.
    + rewrite lookup_insert_ne, lookup_fmap, lookup_snapshot_fields
        by congruence.
      rewrite (bool_decide_eq_false_2 (k = "id"%string)) by exact Hne.
      destruct (bool_decide (k ∈ F)); reflexivity.
  - apply owns_false in Eid.
    eexists. split; [reflexivity|]. intros k.
    rewrite own_values_plain_object, lookup_snapshot_fields.
    destruct (bool_decide (k ∈ F)); [reflexivity|].
    destruct (decide (k = "id"%string)) as [->|Hne].
    + rewrite Eid. reflexivity.
    + rewrite bool_decide_eq_false_2 by exact Hne. reflexivity.
Qed.

(** X16.  For an instance with the built-in [hasOwnProperty] that owns every
    declared field, none of them named [__proto__], and whose id is not
    [undefined], [report()] leaves the shared stamper as it was: it copies
    the id and generates none.  The snapshot holds the instance's value for
    every declared field, the id of the instance when it has one, and
    nothing else; that id is stamped, so it is enumerable and immutable. *)
Theorem report_copies_fields (stamper : IDStamper) this :
  Forall (fun p => is_Some (own this !! p)) F ->
  "__proto__"%string ∉ F ->
  builtin_hasOwnProperty this ->
  own this !! "id"%string <> Some VUndefined ->
  exists snapshot,
    Reporter.report F inherited stamper this = Some (stamper, Normal snapshot)
    /\ (forall k,
          own_values snapshot !! k
          = if bool_decide (k ∈ F) then Some (get (own this) k)
            else if bool_decide (k = "id"%string) then own this !! k
                 else None)
    /\ (forall v, own this !! "id"%string = Some v -> stamped_with snapshot v).
Proof.
  intros Hl Hp Hb Hid.
  destruct (report_values stamper this Hl Hp Hb Hid) as (snapshot & E & Hv).
  exists snapshot. split; [exact E|]. split; [exact Hv|].
  intros v Hv'. rewrite (report_unfold stamper this Hl Hp) in E.
  rewrite (hasOwnProperty_builtin this "id" Hb) in E.
  rewrite (proj2 (owns_true this "id")) in E by eauto.
  assert (Eg : get (own this) "id" = v)
    by (unfold get; rewrite Hv'; reflexivity).
  assert (Hne : v <> VUndefined) by congruence.
  rewrite Eg, (id_to_write_explicit stamper v Hne) in E.
  injection E as _ <-. unfold stamped_with. simpl. apply lookup_insert_eq.
Qed.

(** X17.  A snapshot carries an instance over.  For an instance as in X16
    of a class that declares no field named [hasOwnProperty]: after
    [that.assign(this.report())] the reporter [that] agrees with [this] on
    every declared field and its other keys are as they were; and when
    [this] has exactly the declared fields, [new Reporter(this.report())] is
    an equal instance. *)
Theorem report_round_trip (stamper : IDStamper) this that :
  Forall (fun p => is_Some (own this !! p)) F ->
  "__proto__"%string ∉ F ->
  "hasOwnProperty"%string ∉ F ->
  builtin_hasOwnProperty this ->
  own this !! "id"%string <> Some VUndefined ->
  exists stamper' snapshot that',
    Reporter.report F inherited stamper this
    = Some (stamper', Normal snapshot)
    /\ Reporter.assign F that (literal (own_values snapshot))
       = (that', Normal tt)
    /\ (forall k, k ∈ F -> own that' !! k = Some (get (own this) k))
    /\ (forall k, k ∉ F -> own that' !! k = own that !! k)
    /\ (dom (own this) = list_to_set F ->
        Reporter.new F (literal (own_values snapshot)) = Normal this).
Proof.
  intros Hl Hp Hh Hb Hid.
  destruct (report_values stamper this Hl Hp Hb Hid) as (snapshot & E & Hv).
  assert (Hs : builtin_hasOwnProperty (literal (own_values snapshot))).
  { split; [|reflexivity]. simpl. rewrite Hv.
    rewrite bool_decide_eq_false_2 by exact Hh.
    rewrite bool_decide_eq_false_2 by discriminate. reflexivity. }
  destruct (assign_Normal that (literal (own_values snapshot)) Hs Hp)
    as (that' & Ea & _ & La).
  exists stamper, snapshot, that'.
  split; [exact E|]. split; [exact Ea|]. split; [|split].
  - intros k Hin. rewrite La. simpl. rewrite Hv.
    rewrite !bool_decide_eq_true_2 by exact Hin. reflexivity.
  - intros k Hout. rewrite La. simpl.
    rewrite bool_decide_eq_false_2 by exact Hout.
    destruct (own_values snapshot !! k); reflexivity.
  - intros Hdom.
    destruct (new_has_declared_fields_aux (literal (own_values snapshot))
                Hs Hh Hp) as (this' & En & In & Ln).
    rewrite En. f_equal. apply object_eq.
    + apply map_eq. intros k. rewrite Ln. simpl. rewrite Hv.
      destruct (decide (k ∈ F)) as [Hin|Hout].
      * rewrite !bool_decide_eq_true_2 by exact Hin. simpl.
        assert (Hk : k ∈ dom (own this))
          by (rewrite Hdom; apply elem_of_list_to_set; exact Hin).
        apply elem_of_dom in Hk. destruct Hk as [v Hk].
        unfold get. rewrite Hk. reflexivity.
      * rewrite !bool_decide_eq_false_2 by exact Hout.
        symmetry. apply not_elem_of_dom. rewrite Hdom.
        rewrite elem_of_list_to_set. exact Hout.
    + rewrite In. destruct Hb as [_ Hb]. symmetry. exact Hb.
Qed.

(** X18.  For an instance as in X15 that owns an [id] whose value is
    [undefined], [report()] does generate: the snapshot gets the next id of
    the shared stamper, and the stamper is advanced. *)
Theorem report_undefined_id_generates (n : Z) this :
  Forall (fun p => is_Some (own this !! p)) F ->
  "__proto__"%string ∉ F ->
  builtin_hasOwnProperty this ->
  0 <= n < 2 ^ 53 ->
  own this !! "id"%string = Some VUndefined ->
  exists snapshot,
    Reporter.report F inherited {| gen := Suspended n |} this
    = Some ({| gen := Suspended (n + 1) |}, Normal snapshot)
    /\ stamped_with snapshot (VNum (n + 1)).
Proof.
  intros Hl Hp Hb Hn Hid. rewrite (report_unfold _ this Hl Hp).
  rewrite (hasOwnProperty_builtin this "id" Hb).
  rewrite (proj2 (owns_true this "id")) by eauto.
  assert (Eg : get (own this) "id" = VUndefined)
    by (unfold get; rewrite Hid; reflexivity).
  rewrite Eg. unfold id_to_write. simpl.
  rewrite (next_below n Hn). simpl.
  eexists. split; [reflexivity|].
  unfold stamped_with. simpl. apply lookup_insert_eq.
Qed.

End Snapshots.
End Reporters.
End MergeFacts.

Lemma assign_twice_witness :
  let this := literal {[ "x"%string := VNull; "y"%string := VNull ]} in
  let d1 := literal {[ "x"%string := VNum 1; "y"%string := VNum 2 ]} in
  let d2 := literal {[ "y"%string := VNum 3; "evil"%string := VNum 4 ]} in
  exists this1,
    Reporter.assign ["x"; "y"]%string this d1 = (this1, Normal tt)
    /\ Reporter.assign ["x"; "y"]%string this1 d2
       = Reporter.assign ["x"; "y"]%string this (spread d1 d2)
    /\ Reporter.assign ["x"; "y"]%string this1 d1 = (this1, Normal tt).
Proof.
  cbv zeta.
  apply (assign_twice ["x"; "y"]%string
           (literal {[ "x"%string := VNull; "y"%string := VNull ]})
           (literal {[ "x"%string := VNum 1; "y"%string := VNum 2 ]})
           (literal {[ "y"%string := VNum 3; "evil"%string := VNum 4 ]})).
  - split; reflexivity.
  - split; reflexivity.
  - apply (bool_decide_unpack _). vm_compute. exact I.
Defined.

Lemma assign_foreign_data_witness :
  let this := literal {[ "x"%string := VNum 1 ]} in
  let data := literal {[ "evil"%string := VStr "payload" ]} in
  builtin_hasOwnProperty data
  /\ (forall k, k ∈ ["x"; "y"]%string -> own data !! k = None)
  /\ Reporter.assign ["x"; "y"]%string this data = (this, Normal tt).
Proof.
  cbv zeta.
  assert (Hb : builtin_hasOwnProperty
                 (literal {[ "evil"%string := VStr "payload" ]}))
    by (split; reflexivity).
  assert (H : forall k : string, k ∈ ["x"; "y"]%string ->
                own (literal {[ "evil"%string := VStr "payload" ]}) !! k
                = None).
  { intros k Hk. simpl. apply lookup_singleton_ne.
    apply elem_of_cons in Hk. destruct Hk as [->|Hk]; [discriminate|].
    apply elem_of_cons in Hk. destruct Hk as [->|Hk]; [discriminate|].
    inversion Hk. }
  split; [exact Hb|]. split; [exact H|].
  apply (assign_foreign_data ["x"; "y"]%string
           (literal {[ "x"%string := VNum 1 ]})
           (literal {[ "evil"%string := VStr "payload" ]}) Hb H).
Defined.

Lemma report_returns_snapshot_witness :
  let this := literal {[ "x"%string := VNum 3; "y"%string := VNull;
                         "id"%string := VNum 7 ]} in
  (builtin_hasOwnProperty this ->
   exists stamper' snapshot,
     Reporter.report ["x"; "y"]%string reporter_chain IDStamper.new this
     = Some (stamper', Normal snapshot)
     /\ extensible snapshot = true
     /\ (forall k, is_Some (properties snapshot !! k)
                   <-> k ∈ ["x"; "y"]%string
                       \/ (k = "id"%string /\ is_Some (own this !! k)))
     /\ (forall k, k ∈ ["x"; "y"]%string -> k <> "id"%string ->
                   properties snapshot !! k
                   = Some (plain (get (own this) k))))
  /\ (~ builtin_hasOwnProperty this ->
      Reporter.report ["x"; "y"]%string reporter_chain IDStamper.new this
      = Some (IDStamper.new,
              Throw (TypeError "hasOwnProperty is not a function"))).
Proof.
  cbv zeta.
  apply (report_returns_snapshot ["x"; "y"]%string reporter_chain
           IDStamper.new
           (literal {[ "x"%string := VNum 3; "y"%string := VNull;
                       "id"%string := VNum 7 ]})).
  - repeat (apply Forall_cons; split; [eexists; vm_compute; reflexivity|]).
    apply Forall_nil. exact I.
  - apply (bool_decide_unpack _). vm_compute. exact I.
Defined.

Lemma report_copies_fields_witness :
  let this := literal {[ "x"%string := VNum 3; "y"%string := VNull;
                         "id"%string := VNum 7 ]} in
  exists snapshot,
    Reporter.report ["x"; "y"]%string reporter_chain IDStamper.new this
    = Some (IDStamper.new, Normal snapshot)
    /\ (forall k,
          own_values snapshot !! k
          = if bool_decide (k ∈ ["x"; "y"]%string)
            then Some (get (own this) k)
            else if bool_decide (k = "id"%string) then own this !! k
                 else None)
    /\ (forall v, own this !! "id"%string = Some v -> stamped_with snapshot v).
Proof.
  cbv zeta.
  apply (report_copies_fields ["x"; "y"]%string reporter_chain IDStamper.new
           (literal {[ "x"%string := VNum 3; "y"%string := VNull;
                       "id"%string := VNum 7 ]})).
  - repeat (apply Forall_cons; split; [eexists; vm_compute; reflexivity|]).
    apply Forall_nil. exact I.
  - apply (bool_decide_unpack _). vm_compute. exact I.
  - split; reflexivity.
  - vm_compute. discriminate.
Defined.

Lemma report_round_trip_witness :
  let this := literal {[ "x"%string := VNum 3; "y"%string := VNull ]} in
  exists stamper' snapshot that',
    Reporter.report ["x"; "y"]%string reporter_chain IDStamper.new this
    = Some (stamper', Normal snapshot)
    /\ Reporter.assign ["x"; "y"]%string (literal ∅)
         (literal (own_values snapshot))
       = (that', Normal tt)
    /\ (forall k, k ∈ ["x"; "y"]%string ->
          own that' !! k = Some (get (own this) k))
    /\ (forall k, k ∉ ["x"; "y"]%string ->
          own that' !! k = own (literal ∅) !! k)
    /\ (dom (own this) = list_to_set ["x"; "y"]%string ->
        Reporter.new ["x"; "y"]%string (literal (own_values snapshot))
        = Normal this).
Proof.
  cbv zeta.
  apply (report_round_trip ["x"; "y"]%string reporter_chain IDStamper.new
           (literal {[ "x"%string := VNum 3; "y"%string := VNull ]})
           (literal ∅)).
  - repeat (apply Forall_cons; split; [eexists; vm_compute; reflexivity|]).
    apply Forall_nil. exact I.
  - apply (bool_decide_unpack _). vm_compute. exact I.
  - apply (bool_decide_unpack _). vm_compute. exact I.
  - split; reflexivity.
  - vm_compute. discriminate.
Defined.

Lemma report_undefined_id_generates_witness :
  exists snapshot,
    Reporter.report ["x"]%string reporter_chain
      {| IDStamper.gen := IDStamper.Suspended 0 |}
      (literal {[ "x"%string := VNum 1; "id"%string := VUndefined ]})
    = Some ({| IDStamper.gen := IDStamper.Suspended (0 + 1) |},
            Normal snapshot)
    /\ stamped_with snapshot (VNum (0 + 1)).
Proof.
  apply (report_undefined_id_generates ["x"]%string reporter_chain 0
           (literal {[ "x"%string := VNum 1; "id"%string := VUndefined ]})).
  - repeat (apply Forall_cons; split; [eexists; vm_compute; reflexivity|]).
    apply Forall_nil. exact I.
  - apply (bool_decide_unpack _). vm_compute. exact I.
  - split; reflexivity.
  - split; [discriminate | reflexivity].
  - reflexivity.
Defined.

Example new_Item_from_payload :
  Reporter.new Reporter.Item
    (literal {[ "x" := VNum 5; "type" := VStr "card";
                "evil" := VStr "payload" ]})
  = Normal
      (literal {[ "x" := VNum 5; "y" := VNull; "width" := VNull;
                  "height" := VNull; "type" := VStr "card";
                  "imgsrc" := VNull; "drawCustom" := VNull;
                  "drawStart" := VNull ]}).
Proof. vm_compute. reflexivity. Qed.

Example new_with_shadowed_hasOwnProperty :
  Reporter.new Reporter.Item
    (literal {[ "x" := VNum 5; "hasOwnProperty" := VNum 1 ]})
  = Throw (TypeError "hasOwnProperty is not a function").
Proof. vm_compute. reflexivity. Qed.

Example report_reads_the_prototype_chain :
  Reporter.report ["x"; "toString"]%string reporter_chain IDStamper.new
    (literal {[ "x"%string := VNum 1 ]})
  = None.
Proof. vm_compute. reflexivity. Qed.

(* ===================================================================== *)
(** * Further properties of the publication scheduler                     *)
(* ===================================================================== *)

Section SchedulerFacts.
Import Publishable.
Variable emitPublication : nat -> list action.
Implicit Types (e t : nat) (w : World) (queue turn : list nat).

(** ** Over several turns *)

Lemma run_turns_pending_once (turns : list (list nat)) w w' :
  (forall e, pending_once e w) ->
  run_turns emitPublication turns w = (w', Normal tt) ->
  forall e, pending_once e w'.
Proof.
  revert w. induction turns as [|turn rest IH]; intros w H Hr; simpl in Hr.
  - injection Hr as <-. exact H.
  - destruct (flush emitPublication (publish_each turn w))
      as [w1 [[]|x]] eqn:Ef; [|discriminate Hr].
    apply (IH w1); [|exact Hr].
    apply (flush_pending_once emitPublication (publish_each turn w) w1);
      [|exact Ef].
    intros e. apply publish_each_pending_once, H.
Qed.

(** X19.  The scheduler keeps its books: after any number of turns of a
    process that started with nothing scheduled, each turn being some
    [publish()] calls followed by its flush, every entity is queued once if
    its flag is set and not at all otherwise. *)
Theorem scheduler_invariant (turns : list (list nat)) w' :
  run_turns emitPublication turns boot = (w', Normal tt) ->
  forall e, pending_once e w'.
Proof.
  apply run_turns_pending_once. intros e. reflexivity.
Qed.

(** ** The order of the emissions *)

Lemma filter_filter_implied {A} (f g : A -> bool) (l : list A) :
  (forall x, f x = true -> g x = true) ->
  List.filter f (List.filter g l) = List.filter f l.
Proof.
  intros H. induction l as [|x l IH]; simpl.
  - reflexivity.
  - destruct (g x) eqn:Eg; simpl.
    + rewrite IH. reflexivity.
    + destruct (f x) eqn:Ef; [|exact IH].
      rewrite (H x Ef) in Eg. discriminate.
Qed.

Lemma filter_filter_andb {A} (f g : A -> bool) (l : list A) :
  List.filter f (List.filter g l) = List.filter (fun x => g x && f x) l.
Proof.
  induction l as [|x l IH]; simpl.
  - reflexivity.
  - destruct (g x); simpl; [destruct (f x)|]; rewrite ?IH; reflexivity.
Qed.

Lemma existsb_eqb_In queue t :
  existsb (Nat.eqb t) queue = true <-> In t queue.
Proof.
  rewrite existsb_exists. split.
  - intros (x & Hx & E). apply Nat.eqb_eq in E. subst. exact Hx.
  - intros H. exists t. split; [exact H | apply Nat.eqb_refl].
Qed.

(** With the flags set exactly for the queued entities, a turn appends to
    the queue the entities it publishes that were not queued, in the order
    of their first [publish()]. *)
Lemma publish_each_queue turn :
  forall w,
    (forall e, scheduled w !! e = Some true <-> In e (immediates w)) ->
    immediates (publish_each turn w)
    = immediates w
      ++ List.filter (fun x => negb (existsb (Nat.eqb x) (immediates w)))
           (first_occurrences turn).
Proof.
  induction turn as [|t rest IH]; intros w Hw.
  - simpl. rewrite app_nil_r. reflexivity.
  - change (publish_each (t :: rest) w) with (publish_each rest (publish t w)).
    simpl first_occurrences. simpl List.filter.
    destruct (not_scheduled t w) eqn:Et.
    + assert (Hnot : ~ In t (immediates w)).
      { intros Hin. apply Hw in Hin. apply not_scheduled_false in Hin.
        congruence. }
      assert (Em : existsb (Nat.eqb t) (immediates w) = false).
      { destruct (existsb (Nat.eqb t) (immediates w)) eqn:E; [|reflexivity].
        apply existsb_eqb_In in E. contradiction. }
      rewrite Em. simpl.
      rewrite IH.
      * unfold publish. rewrite Et. simpl. rewrite <- app_assoc. simpl.
        f_equal. f_equal. rewrite filter_filter_andb.
        apply List.filter_ext. intros x.
        rewrite existsb_app. simpl. rewrite orb_false_r, negb_orb.
        apply andb_comm.
      * intros e. unfold publish. rewrite Et. simpl.
        rewrite in_app_iff. simpl.
        destruct (Nat.eq_dec t e) as [->|Hne].
        -- rewrite lookup_insert_eq. tauto.
        -- rewrite lookup_insert_ne by exact Hne. rewrite Hw. tauto.
    + apply not_scheduled_false in Et.
      assert (Hin : In t (immediates w)) by (apply Hw; exact Et).
      rewrite (proj2 (existsb_eqb_In (immediates w) t) Hin). simpl.
      rewrite publish_scheduled by exact Et.
      rewrite IH by exact Hw. f_equal.
      symmetry. apply filter_filter_implied. intros x Hx.
      destruct (Nat.eqb x t) eqn:E; [|reflexivity].
      apply Nat.eqb_eq in E. subst x.
      rewrite (proj2 (existsb_eqb_In (immediates w) t) Hin) in Hx.
      discriminate Hx.
Qed.

Lemma first_occurrences_incl turn t : In t (first_occurrences turn) -> In t turn.
Proof.
  induction turn as [|x rest IH]; simpl.
  - tauto.
  - intros [H|H]; [auto|]. apply filter_In in H. right. apply IH, H.
Qed.

(** X20.  From an idle scheduler, a turn that calls [publish()] on the
    entities of [turn], in that order and with any repeats, queues each of
    them once, in the order of their first call; and its flush, when no
    [emitPublication] throws, emits them in that order, each once. *)
Theorem turn_emits_in_publication_order turn w :
  idle w ->
  Forall (fun t => quiet (emitPublication t) = true) turn ->
  immediates (publish_each turn w) = first_occurrences turn
  /\ exists w',
       flush emitPublication (publish_each turn w) = (w', Normal tt)
       /\ emissions w' = emissions w ++ first_occurrences turn.
Proof.
  intros [Hq Hf] Hquiet.
  assert (E : immediates (publish_each turn w) = first_occurrences turn).
  { rewrite publish_each_queue.
    - rewrite Hq. simpl.
      clear. induction (first_occurrences turn) as [|x l IH]; simpl;
        [reflexivity | f_equal; exact IH].
    - intros e. rewrite Hq. simpl. split; [intros H|tauto].
      destruct (Hf e H). }
  split; [exact E|].
  destruct (flush_quiet emitPublication (publish_each turn w))
    as (w' & Hw' & He).
  - rewrite E. apply Forall_forall. intros t Ht.
    apply list_elem_of_In, first_occurrences_incl in Ht.
    rewrite Forall_forall in Hquiet. apply Hquiet.
    apply list_elem_of_In. exact Ht.
  - exists w'. split; [exact Hw'|].
    rewrite He, E, publish_each_emissions. reflexivity.
Qed.

(** ** A flush that schedules nothing *)

Lemma silent_quiet (body : list action) : silent body = true -> quiet body = true.
Proof.
  induction body as [|[target| |s] rest IH]; simpl; intros H;
    try discriminate H; auto.
Qed.

Lemma run_silent this (body : list action) w :
  silent body = true ->
  immediates (fst (run this body w)) = immediates w
  /\ scheduled (fst (run this body w)) = scheduled w.
Proof.
  revert w. induction body as [|[target| |s] rest IH]; intros w H; simpl;
    try discriminate H.
  - auto.
  - apply (IH {| scheduled := scheduled w; immediates := immediates w;
                 emissions := emissions w; wire := wire w ++ [this] |}), H.
Qed.

Lemma run_immediates_silent queue w :
  Forall (fun t => silent (emitPublication t) = true) queue ->
  immediates (fst (run_immediates emitPublication queue w)) = immediates w.
Proof.
  intros H. revert w. induction H as [|t queue Ht _ IH]; intros w; simpl.
  - reflexivity.
  - pose proof (emit_quiet emitPublication t w (silent_quiet _ Ht)) as Hn.
    pose proof (run_silent t (emitPublication t)
                  {| scheduled := <[t := false]> (scheduled w);
                     immediates := immediates w;
                     emissions := emissions w ++ [t];
                     wire := wire w |} Ht) as [Hi _].
    rewrite <- emit_unfold in Hi.
    destruct (emit emitPublication t w) as [w1 c]. simpl in Hn, Hi. subst c.
    rewrite IH. exact Hi.
Qed.

(** X21.  When the [emitPublication] of the queued entities only sends (it
    calls no [publish()] and does not throw), the flush leaves the scheduler
    idle: it emits every queued entity, the queue is empty afterwards and no
    flag is set. *)
Theorem flush_leaves_idle w :
  (forall e, pending_once e w) ->
  Forall (fun t => silent (emitPublication t) = true) (immediates w) ->
  exists w',
    flush emitPublication w = (w', Normal tt)
    /\ idle w'
    /\ emissions w' = emissions w ++ immediates w.
Proof.
  intros Hp Hs.
  destruct (flush_quiet emitPublication w) as (w' & Hf & He).
  { eapply Forall_impl; [exact Hs|]. intros t. apply silent_quiet. }
  exists w'. split; [exact Hf|]. split; [|exact He].
  assert (Hi : immediates w' = []).
  { pose proof (run_immediates_silent (immediates w)
                  {| scheduled := scheduled w; immediates := [];
                     emissions := emissions w; wire := wire w |} Hs) as H.
    unfold flush in Hf. rewrite Hf in H. exact H. }
  split; [exact Hi|]. intros e He'.
  pose proof (flush_pending_once emitPublication w w' Hp Hf e) as H.
  unfold pending_once in H. rewrite Hi, He' in H. discriminate H.
Qed.

(** ** A class without [emitPublication] *)

Lemma run_immediates_app (q1 q2 : list nat) w :
  Forall (fun t => quiet (emitPublication t) = true) q1 ->
  exists w1,
    run_immediates emitPublication (q1 ++ q2) w
    = run_immediates emitPublication q2 w1
    /\ emissions w1 = emissions w ++ q1.
Proof.
  intros H. revert w. induction H as [|t q1 Ht _ IH]; intros w; simpl.
  - exists w. rewrite app_nil_r. auto.
  - pose proof (emit_quiet emitPublication t w Ht) as Hn.
    pose proof (emit_emissions emitPublication t w) as He.
    destruct (emit emitPublication t w) as [w0 c]. simpl in Hn, He. subst c.
    destruct (IH w0) as (w1 & Hr & Hw1). exists w1. split; [exact Hr|].
    rewrite Hw1, He, <- app_assoc. reflexivity.
Qed.

(** X22.  An entity whose class did not implement [emitPublication] makes
    the flush fail fast: the callbacks queued before it run, its own
    emission clears its flag and throws the message of the mixin, and the
    callbacks queued after it are not run. *)
Theorem flush_unimplemented_throws (before after : list nat) e w :
  immediates w = before ++ e :: after ->
  Forall (fun t => quiet (emitPublication t) = true) before ->
  emitPublication e = unimplemented ->
  exists w',
    flush emitPublication w
    = (w', Throw (ThrownString
         "Classes using Publishable mixin must implement emitPublication()"))
    /\ emissions w' = emissions w ++ before ++ [e]
    /\ scheduled w' !! e = Some false.
Proof.
  intros Hq Hb He. unfold flush. rewrite Hq.
  destruct (run_immediates_app before (e :: after)
              {| scheduled := scheduled w; immediates := [];
                 emissions := emissions w; wire := wire w |} Hb)
    as (w1 & Hr & He1).
  rewrite Hr. simpl. rewrite emit_unfold, He. simpl.
  eexists. split; [reflexivity|]. simpl.
  rewrite He1. simpl. rewrite <- app_assoc. split; [reflexivity|].
  apply lookup_insert_eq.
Qed.

End SchedulerFacts.

Lemma scheduler_invariant_witness :
  let emitPublication := fun e : nat =>
    match e with 1%nat => [Publishable.Transmit; Publishable.CallPublish 1]
               | _ => [Publishable.Transmit] end in
  let turns := [ [1; 2; 1]; [2; 2]; [] ]%nat in
  let w' := fst (run_turns emitPublication turns Publishable.boot) in
  Publishable.immediates w' = [1%nat]
  /\ forall e, pending_once e w'.
Proof.
  cbv zeta. split.
  - vm_compute. reflexivity.
  - apply (scheduler_invariant
             (fun e : nat =>
                match e with
                | 1%nat => [Publishable.Transmit; Publishable.CallPublish 1]
                | _ => [Publishable.Transmit]
                end)
             [ [1; 2; 1]; [2; 2]; [] ]%nat).
    vm_compute. reflexivity.
Defined.

Lemma turn_emits_in_publication_order_witness :
  let emitPublication := fun _ : nat => [Publishable.Transmit] in
  let turn := [7; 3; 7; 5; 3]%nat in
  idle Publishable.boot
  /\ Publishable.immediates (publish_each turn Publishable.boot)
     = first_occurrences turn
  /\ exists w',
       Publishable.flush emitPublication (publish_each turn Publishable.boot)
       = (w', Normal tt)
       /\ Publishable.emissions w'
          = Publishable.emissions Publishable.boot ++ first_occurrences turn.
Proof.
  cbv zeta.
  assert (Hidle : idle Publishable.boot).
  { split; [reflexivity|]. intros e. simpl. rewrite lookup_empty.
    discriminate. }
  split; [exact Hidle|].
  apply (turn_emits_in_publication_order
           (fun _ : nat => [Publishable.Transmit]) [7; 3; 7; 5; 3]%nat
           Publishable.boot Hidle).
  repeat constructor.
Defined.

Lemma flush_leaves_idle_witness :
  let emitPublication := fun _ : nat => [Publishable.Transmit] in
  let w := publish_each [4; 6; 4]%nat Publishable.boot in
  exists w',
    Publishable.flush emitPublication w = (w', Normal tt)
    /\ idle w'
    /\ Publishable.emissions w'
       = Publishable.emissions w ++ Publishable.immediates w.
Proof.
  cbv zeta.
  apply (flush_leaves_idle (fun _ : nat => [Publishable.Transmit])
           (publish_each [4; 6; 4]%nat Publishable.boot)).
  - intros e. apply publish_each_pending_once. reflexivity.
  - repeat constructor.
Defined.

Lemma flush_unimplemented_throws_witness :
  let emitPublication := fun e : nat =>
    match e with 2%nat => Publishable.unimplemented
               | _ => [Publishable.Transmit] end in
  let w := publish_each [1; 2; 3]%nat Publishable.boot in
  Publishable.immediates w = [1; 2; 3]%nat
  /\ exists w',
       Publishable.flush emitPublication w
       = (w', Throw (ThrownString
            "Classes using Publishable mixin must implement emitPublication()"))
       /\ Publishable.emissions w' = Publishable.emissions w ++ [1%nat] ++ [2%nat]
       /\ Publishable.scheduled w' !! 2%nat = Some false.
Proof.
  cbv zeta. split.
  - reflexivity.
  - apply (flush_unimplemented_throws
             (fun e : nat =>
                match e with
                | 2%nat => Publishable.unimplemented
                | _ => [Publishable.Transmit]
                end)
             [1%nat] [3%nat] 2%nat (publish_each [1; 2; 3]%nat Publishable.boot)).
    + reflexivity.
    + repeat constructor.
    + reflexivity.
Defined.
